(** * AetherPackBot: the dashboard client and the message core

    A shallow embedding of the parts of AetherPackBot that its specification
    talks about:

    - [JsString]: JavaScript strings as sequences of UTF-16 code units, with
      the string primitives the dashboard uses ([trim], [split], [join],
      [startsWith], [includes]);
    - [Dashboard]: [api], [sendChat], the persona actions and the settings
      round trip of [data/dist/js/app.js], with the form controls the values
      pass through;
    - [Router]: the route records and the navigation guard of
      [dashboard/src/router/index.ts] together with the auth store it reads;
    - [Core]: the event dispatcher, the waking check, the agent stage and the
      tool-calling orchestrator of the Python core.  *)

From stdpp Require Import base numbers option list strings pretty gmap.
From Stdlib Require Import NArith Ascii Lia.

Local Open Scope N_scope.
#[local] Set Warnings "-register-all".

(** ** JavaScript strings *)

Module JsString.

(** A string is its sequence of UTF-16 code units. *)
Definition str : Type := list N.

(** An ASCII literal as a string (one code unit per character). *)
Fixpoint lit (s : string) : str :=
  match s with
  | EmptyString => []
  | String a s' => N_of_ascii a :: lit s'
  end.

Definition comma : N := 44.
Definition space : N := 32.

(** ECMAScript [WhiteSpace] and [LineTerminator] code points: what
    [String.prototype.trim] strips. *)
Definition is_white_space (c : N) : bool :=
  (c =? 9) || (c =? 10) || (c =? 11) || (c =? 12) || (c =? 13) ||
  (c =? 32) || (c =? 160) || (c =? 5760) ||
  ((8192 <=? c) && (c <=? 8202)) ||
  (c =? 8232) || (c =? 8233) || (c =? 8239) || (c =? 8287) ||
  (c =? 12288) || (c =? 65279).

Fixpoint trimStart (s : str) : str :=
  match s with
  | [] => []
  | c :: s' => if is_white_space c then trimStart s' else s
  end.

Definition trimEnd (s : str) : str := reverse (trimStart (reverse s)).

(** [s.trim()] *)
Definition trim (s : str) : str := trimEnd (trimStart s).

(** [s.startsWith(p)] *)
Fixpoint startsWith (s p : str) : bool :=
  match p, s with
  | [], _ => true
  | _ :: _, [] => false
  | a :: p', b :: s' => (a =? b) && startsWith s' p'
  end.

(** [s.includes(w)] *)
Fixpoint includes (s w : str) : bool :=
  startsWith s w ||
  match s with
  | [] => false
  | _ :: s' => includes s' w
  end.

(** [s.split(c)] for a separator of one code unit: never the empty
    array, [""] for the empty string. *)
Fixpoint split (c : N) (s : str) : list str :=
  match s with
  | [] => [[]]
  | x :: s' =>
      if x =? c then [] :: split c s'
      else match split c s' with
           | h :: t => (x :: h) :: t
           | [] => [[x]]
           end
  end.

(** [a.join(sep)] on an array of strings. *)
Fixpoint join (sep : str) (a : list str) : str :=
  match a with
  | [] => []
  | x :: a' =>
      match a' with
      | [] => x
      | _ :: _ => x ++ sep ++ join sep a'
      end
  end.

(** Truthiness of a string: [Boolean(s)]. *)
Definition truthy (s : str) : bool :=
  match s with [] => false | _ :: _ => true end.

End JsString.

(** ** The dashboard client ([data/dist/js/app.js]) *)

Module Dashboard.
Import JsString.

(** *** JSON values and JavaScript errors *)

(** A value as [JSON.parse] returns it. A number is kept as what the
    dashboard can observe of it: whether it is zero (its truthiness) and its
    rendering as a string. An object is the list of its members as written;
    when a key is written twice the later member is the one read. *)
Inductive json : Type :=
| JNull
| JBool (b : bool)
| JNum (is_zero : bool) (text : str)
| JStr (s : str)
| JArr (items : list json)
| JObj (members : list (str * json)).

Fixpoint member (k : str) (ms : list (str * json)) : option json :=
  match ms with
  | [] => None
  | (k', v) :: ms' =>
      match member k ms' with
      | Some v' => Some v'
      | None => if decide (k' = k) then Some v else None
      end
  end.

(** [v?.k] for the keys the dashboard reads ([status], [message], [data],
    [content]), none of which is a built-in property of a string, number,
    boolean or array: [None] is [undefined]. *)
Definition get (v : json) (k : str) : option json :=
  match v with
  | JObj ms => member k ms
  | _ => None
  end.

(** Truthiness of a value, [undefined] included. *)
Definition truthy_value (v : option json) : bool :=
  match v with
  | None | Some JNull => false
  | Some (JBool b) => b
  | Some (JNum z _) => negb z
  | Some (JStr s) => truthy s
  | Some (JArr _) | Some (JObj _) => true
  end.

(** [String(v)], as [new Error(v)] applies it to its message. *)
Fixpoint to_str (v : json) : str :=
  match v with
  | JNull => lit "null"
  | JBool true => lit "true"
  | JBool false => lit "false"
  | JNum _ text => text
  | JStr s => s
  | JArr items =>
      join [comma]
        (map (fun x => match x with JNull => [] | _ => to_str x end) items)
  | JObj _ => lit "[object Object]"
  end.

Record js_error : Type := Error { message : str }.

Inductive outcome (A : Type) : Type :=
| Return (a : A)
| Throw (e : js_error).
Arguments Return {A} a.
Arguments Throw {A} e.

Definition throws {A : Type} (o : outcome A) : Prop := ∃ e, o = Throw e.

(** *** The API layer: [api] *)

(** What [fetch] hands back: a response, whose [json()] either parses the
    body or rejects ([None]), or a rejection when no response arrives. *)
Record response : Type := Response { status : N; parsed : option json }.

Inductive fetched : Type :=
| Rejected (e : js_error)
| Responded (res : response).

(** [res.ok]: the status is in the range 200-299. *)
Definition ok (res : response) : bool :=
  (200 <=? status res) && (status res <=? 299).

(** [await res.json().catch(() => null)]: the parsed body, [null] when the
    body is not JSON. *)
Definition body_of (res : response) : json := default JNull (parsed res).

(** [v === s] for a string [s]. *)
Definition strict_eq_str (v : option json) (s : str) : bool :=
  match v with
  | Some (JStr s') => bool_decide (s' = s)
  | _ => false
  end.

(** [v || fallback] as the message of a [new Error]. *)
Definition message_or (v : option json) (fallback : str) : str :=
  match v with
  | Some m => if truthy_value v then to_str m else fallback
  | None => fallback
  end.

(** [v ?? w] *)
Definition nullish_or (v : option json) (w : json) : json :=
  match v with
  | None | Some JNull => w
  | Some d => d
  end.

(** [api(path, opts)] once [fetch] has settled. *)
Definition api (f : fetched) : outcome json :=
  match f with
  | Rejected e => Throw e
  | Responded res =>
      let body := body_of res in
      if negb (ok res) then
        Throw (Error (message_or (get body (lit "message"))
                        (lit "HTTP " ++ lit (pretty (status res)))))
      else if strict_eq_str (get body (lit "status")) (lit "error") then
        Throw (Error (message_or (get body (lit "message")) (lit "Unknown error")))
      else
        Return (nullish_or (get body (lit "data")) body)
  end.

(** *** Settings: the wake-prefix field *)

(** [loadSettings]: the configured list is shown as
    [(cfg.agent?.wake_prefixes || []).join(", ")]. *)
Definition render_wake_prefixes (prefixes : list str) : str :=
  join [comma; space] prefixes.

(** [saveSettings]: the field is read back as
    [value.split(",").map(s => s.trim()).filter(Boolean)]. *)
Definition parse_wake_prefixes (field : str) : list str :=
  filter (fun s => truthy s = true) (map trim (split comma field)).

(** A prefix that survives the field: not empty, no comma inside, no white
    space at either end. *)
Definition plain_prefix (s : str) : bool :=
  truthy s && negb (existsb (N.eqb comma) s) &&
  match head s with Some c => negb (is_white_space c) | None => true end &&
  match last s with Some c => negb (is_white_space c) | None => true end.

(** *** Form controls *)

(** The controls whose [value] the dashboard assigns and reads back: a
    text [input], which strips the line breaks (code units 10 and 13) from a
    value assigned to it, and a [textarea], whose [value] reads with every
    line break (13 then 10, or 13 alone) as the one code unit 10. *)
Inductive control : Type :=
| TextInput
| TextArea.

Definition strip_newlines (s : str) : str :=
  List.filter (λ c, negb ((c =? 10) || (c =? 13))) s.

Fixpoint normalize_newlines (s : str) : str :=
  match s with
  | [] => []
  | c :: s' =>
      if c =? 13 then
        10 :: match s' with
              | d :: s'' =>
                  if d =? 10 then normalize_newlines s'' else normalize_newlines s'
              | [] => []
              end
      else c :: normalize_newlines s'
  end.

(** [el.value = assigned; ... el.value]: what the control gives back. *)
Definition control_value (ctl : control) (assigned : str) : str :=
  match ctl with
  | TextInput => strip_newlines assigned
  | TextArea => normalize_newlines assigned
  end.

(** A code unit that the control gives back as it was assigned. *)
Definition kept (ctl : control) (c : N) : bool :=
  match ctl with
  | TextInput => negb ((c =? 10) || (c =? 13))
  | TextArea => negb (c =? 13)
  end.

(** A string without a line break that the control alters. *)
Definition unbroken (ctl : control) (s : str) : bool := forallb (kept ctl) s.

(** The settings round trip: [loadSettings] assigns the rendered list to
    the value of the field [conf-wake-prefixes], [saveSettings] parses the
    value it reads there. *)
Definition settings_round_trip (ctl : control) (prefixes : list str) : list str :=
  parse_wake_prefixes (control_value ctl (render_wake_prefixes prefixes)).

(** *** Chat: [sendChat] *)

(** An entry of [app.chatHistory]; [content] may be [undefined]. *)
Record chat_entry : Type :=
  ChatEntry { role : str; content : option json; time : option str }.

(** An item of the [history] the request carries: [{ role, content }]. *)
Record turn : Type := Turn { turn_role : str; turn_content : option json }.

(** The body posted to [/api/chat]; [provider_id] is set only when a
    provider is selected. *)
Record chat_body : Type :=
  ChatBody { body_message : str; body_history : list turn;
             body_provider_id : option str }.

Record notification : Type := Notify { note_text : str; note_type : str }.

(** [a.slice(-n)]: the last [n] items, all of them when there are fewer. *)
Definition slice_last {A : Type} (n : nat) (a : list A) : list A :=
  drop (length a - n)%nat a.

(** [m => ({ role: m.role, content: m.content })] *)
Definition to_turn (m : chat_entry) : turn := Turn (role m) (content m).

(** [m => m.role !== "system"] *)
Definition not_system (m : chat_entry) : Prop := role m ≠ lit "system".

(** The entry pushed for the message being sent. *)
Definition user_entry (msg now : str) : chat_entry :=
  ChatEntry (lit "user") (Some (JStr msg)) (Some now).

(** The body built once the user entry has been pushed onto [history]. *)
Definition chat_request (history : list chat_entry) (msg providerId : str)
  : chat_body :=
  {| body_message := msg;
     body_history := to_turn <$> slice_last 20 (filter not_system history);
     body_provider_id := if truthy providerId then Some providerId else None |}.

(** "[错误] " *)
Definition error_tag : str := [91; 38169; 35823; 93; 32].
(** "发送失败: " *)
Definition send_failed : str := [21457; 36865; 22833; 36133; 58; 32].
(** The [TypeError] raised by [data.content] when [data] is [null], in the
    wording of V8. *)
Definition null_content_error : js_error :=
  Error (lit "Cannot read properties of null (reading 'content')").

(** The [catch] branch of [sendChat]. *)
Definition chat_failed (history : list chat_entry) (e : js_error) (now : str)
  : list chat_entry * list notification :=
  (history ++ [ChatEntry (lit "assistant")
                 (Some (JStr (error_tag ++ message e))) (Some now)],
   [Notify (send_failed ++ message e) (lit "error")]).

(** What [await api("/api/chat", ...)] settles to in [sendChat]: the body
    is built from the history with the user entry pushed. *)
Definition posted (backend : chat_body → fetched)
    (input providerId sent_at : str) (chatHistory : list chat_entry)
  : outcome json :=
  api (backend (chat_request (chatHistory ++ [user_entry (trim input) sent_at])
                  (trim input) providerId)).

(** A backend that cannot be reached: [fetch] rejects. *)
Definition offline : chat_body → fetched :=
  λ _, Rejected (Error (lit "Failed to fetch")).

(** [app.sendChat()]: [input] is the text of the chat box, [providerId] the
    selected provider, [backend] what [fetch] settles to for the posted body,
    [sent_at] and [replied_at] the two readings of the clock. The result is
    the new [chatHistory] and the notifications shown. *)
Definition sendChat (backend : chat_body → fetched)
    (input providerId sent_at replied_at : str) (chatHistory : list chat_entry)
  : list chat_entry * list notification :=
  let msg := trim input in
  if negb (truthy msg) then (chatHistory, [])
  else
    let pushed := chatHistory ++ [user_entry msg sent_at] in
    match api (backend (chat_request pushed msg providerId)) with
    | Return JNull => chat_failed pushed null_content_error replied_at
    | Return data =>
        (pushed ++ [ChatEntry (lit "assistant") (get data (lit "content"))
                      (Some replied_at)], [])
    | Throw e => chat_failed pushed e replied_at
    end.

(** *** Personas *)

(** An entry as [savePersona] writes it. *)
Record persona : Type :=
  Persona { name : str; description : str; prompt : str }.

(** The part of the stored configuration the persona page reads and writes.
    Modelled from the spec: the server side of [PUT /api/config] is not among
    the sources; the changelog describes it as a deep merge of the posted
    object into the stored configuration, so a posted [personas] or
    [default_persona] replaces the stored value of that key and leaves the
    other one as it was. *)
Record config : Type :=
  Config { personas : list persona; default_persona : str }.

Definition put_personas (cfg : config) (ps : list persona) : config :=
  {| personas := ps; default_persona := default_persona cfg |}.

Definition put_default_persona (cfg : config) (n : str) : config :=
  {| personas := personas cfg; default_persona := n |}.

(** [app.actions.savePersona()]: the three form fields and
    [app.modals._editingPersonaIdx] ([None] for [null]). *)
Definition savePersona (editing : option nat) (name_field desc_field prompt_field : str)
    (cfg : config) : config :=
  let name := trim name_field in
  let desc := trim desc_field in
  let prompt := trim prompt_field in
  if negb (truthy name) then cfg
  else if negb (truthy prompt) then cfg
  else
    let entry := Persona name desc prompt in
    match editing with
    | Some idx =>
        if (idx <? length (personas cfg))%nat
        then put_personas cfg (<[idx := entry]> (personas cfg))
        else put_personas cfg (personas cfg ++ [entry])
    | None => put_personas cfg (personas cfg ++ [entry])
    end.

(** [app.actions.deletePersona(idx)], the dialog confirmed. *)
Definition deletePersona (idx : nat) (cfg : config) : config :=
  if (idx <? length (personas cfg))%nat
  then put_personas cfg (delete idx (personas cfg))
  else cfg.

(** [app.actions.setDefaultPersona(name)] *)
Definition setDefaultPersona (n : str) (cfg : config) : config :=
  put_default_persona cfg n.

(** [isActive] in [loadPersonas]: the persona shown as the one in use. *)
Definition isActive (cfg : config) (p : persona) : bool :=
  bool_decide (name p = default_persona cfg).

(** The operations of the persona page. *)
Inductive persona_op : Type :=
| Create (name_field desc_field prompt_field : str)
| Edit (idx : nat) (name_field desc_field prompt_field : str)
| Delete (idx : nat)
| SetDefault (n : str).

Definition apply_op (cfg : config) (op : persona_op) : config :=
  match op with
  | Create n d p => savePersona None n d p cfg
  | Edit i n d p => savePersona (Some i) n d p cfg
  | Delete i => deletePersona i cfg
  | SetDefault n => setDefaultPersona n cfg
  end.

Definition run_ops (ops : list persona_op) (cfg : config) : config :=
  foldl apply_op cfg ops.

Definition names (cfg : config) : list str := name <$> personas cfg.

(** How many personas the page shows as the default. *)
Definition default_count (cfg : config) : nat :=
  length (filter (fun p => isActive cfg p = true) (personas cfg)).

(** Whether [op] leaves the names apart: the name it writes, trimmed, is
    borne by no other persona. An edit in range is compared with the
    personas at the other indices; an edit out of range appends, as a
    creation does. *)
Definition keeps_names_apart (cfg : config) (op : persona_op) : bool :=
  match op with
  | Create n _ _ => bool_decide (trim n ∉ names cfg)
  | Edit i n _ _ =>
      if (i <? length (personas cfg))%nat
      then bool_decide (trim n ∉ delete i (names cfg))
      else bool_decide (trim n ∉ names cfg)
  | Delete _ | SetDefault _ => true
  end.

Fixpoint all_keep_names_apart (cfg : config) (ops : list persona_op) : bool :=
  match ops with
  | [] => true
  | op :: ops' =>
      keeps_names_apart cfg op && all_keep_names_apart (apply_op cfg op) ops'
  end.

(** The configuration of a fresh installation: no persona, no default. *)
Definition no_personas : config := Config [] [].

(** *** Platform credentials: [openPlatform] and [savePlatform] *)

Definition colon : N := 58.

(** The token field as [openPlatform] fills it for a DingTalk or Lark
    platform: [(cid && csecret) ? `${cid}:${csecret}` : (p.token || "")],
    the three values already defaulted to [""]. *)
Definition credential_field (cid csecret token : str) : str :=
  if truthy cid && truthy csecret then cid ++ [colon] ++ csecret else token.

(** What [savePlatform] puts into the posted data for a DingTalk or Lark
    platform: the two halves ([client_id] and [client_secret], or [app_id]
    and [app_secret]), a plain [token], or nothing. A half is [None] when
    the destructured array has no such item. *)
Inductive credentials : Type :=
| Halves (first second : option str)
| PlainToken (token : str)
| NoCredentials.

(** The DingTalk and Lark branches of [savePlatform]:
    [token.includes(":")], then [token.split(":", 2)]. *)
Definition parse_credentials (field : str) : credentials :=
  let token := trim field in
  if includes token [colon] then
    let parts := take 2 (split colon token) in
    Halves (parts !! 0%nat) (parts !! 1%nat)
  else if truthy token then PlainToken token
  else NoCredentials.

(** A half of the credentials that the token field can carry: not empty
    and without a colon. *)
Definition credential_half (s : str) : bool :=
  truthy s && negb (existsb (N.eqb colon) s).

(** *** Account: [changePassword] *)

(** The fields of the account tab. *)
Record password_form : Type :=
  PasswordForm { new_password : str; new_password2 : str; new_username : str }.

(** The [update] object posted as [{ web: update }]: a key is present only
    when its field was filled. *)
Record account_update : Type :=
  AccountUpdate { admin_username : option str; admin_password : option str }.

Record password_result : Type :=
  PasswordResult { posted_update : option account_update;
                   form_after : password_form;
                   password_notes : list notification }.

(** "两次密码不一致" *)
Definition passwords_differ : str := [20004; 27425; 23494; 30721; 19981; 19968; 33268].
(** "请输入新密码或用户名" *)
Definition nothing_to_change : str :=
  [35831; 36755; 20837; 26032; 23494; 30721; 25110; 29992; 25143; 21517].
(** "账号信息已更新，下次登录生效" *)
Definition account_updated : str :=
  [36134; 21495; 20449; 24687; 24050; 26356; 26032; 65292; 19979; 27425; 30331;
   24405; 29983; 25928].
(** "修改失败: " *)
Definition change_failed : str := [20462; 25913; 22833; 36133; 58; 32].

(** [app.actions.changePassword()]: [backend] is what [fetch] settles to for
    the posted update. *)
Definition changePassword (backend : account_update → fetched) (form : password_form)
  : password_result :=
  let newPw := new_password form in
  let newPw2 := new_password2 form in
  let newUser := trim (new_username form) in
  if truthy newPw && negb (bool_decide (newPw = newPw2)) then
    PasswordResult None form [Notify passwords_differ (lit "error")]
  else if negb (truthy newPw) && negb (truthy newUser) then
    PasswordResult None form [Notify nothing_to_change (lit "error")]
  else
    let update :=
      AccountUpdate (if truthy newUser then Some newUser else None)
                    (if truthy newPw then Some newPw else None) in
    match api (backend update) with
    | Return _ =>
        PasswordResult (Some update) (PasswordForm [] [] (new_username form))
          [Notify account_updated (lit "success")]
    | Throw e =>
        PasswordResult (Some update) form
          [Notify (change_failed ++ message e) (lit "error")]
    end.

(** *** Escaping: [_escHtml] *)

(** How the text of an element is serialized by [innerHTML]: the HTML
    fragment serialization escapes [&], the no-break space, [<] and [>]. *)
Definition escape_unit (c : N) : str :=
  if c =? 38 then lit "&amp;"
  else if c =? 160 then lit "&nbsp;"
  else if c =? 60 then lit "&lt;"
  else if c =? 62 then lit "&gt;"
  else [c].

Fixpoint serialize_text (s : str) : str :=
  match s with
  | [] => []
  | c :: s' => escape_unit c ++ serialize_text s'
  end.

(** [app._escHtml(s)]: [""] for a falsy value, else the serialization of a
    text node holding [String(s)]. *)
Definition _escHtml (s : option json) : str :=
  match s with
  | Some v => if truthy_value s then serialize_text (to_str v) else []
  | None => []
  end.

(** The double quote and the apostrophe. *)
Definition is_quote (c : N) : bool := (c =? 34) || (c =? 39).

(** A persona as the form lets one through: name and prompt not empty, the
    name without white space at either end. *)
Definition tidy_persona (p : persona) : bool :=
  truthy (name p) && truthy (prompt p) && bool_decide (trim (name p) = name p).

End Dashboard.

(** ** The dashboard router ([dashboard/src/router/index.ts]) *)

Module Router.
Import JsString.

(** The auth store: what [localStorage] held when it was created, then
    what [login] and [logout] set. *)
Record auth_store : Type := AuthStore { token : option str; username : option str }.

(** [isAuthenticated = computed(() => !!token.value)] *)
Definition isAuthenticated (auth : auth_store) : bool :=
  match token auth with
  | Some t => truthy t
  | None => false
  end.

(** The target of a navigation as the guard reads it: [to.path] and the
    truthiness of [to.meta.requiresAuth], the meta of the matched records
    merged from parent to child. *)
Record route_location : Type := RouteLocation { path : str; requiresAuth : bool }.

(** What the guard hands to [next]. *)
Inductive guard_result : Type :=
| Next
| NextTo (target : str).

(** [router.beforeEach((to, _from, next) => ...)] *)
Definition beforeEach (to : route_location) (auth : auth_store) : guard_result :=
  if requiresAuth to && negb (isAuthenticated auth) then NextTo (lit "/login")
  else if bool_decide (path to = lit "/login") && isAuthenticated auth then NextTo (lit "/")
  else Next.

(** The children of the dashboard layout, by full path; the layout record
    carries [meta: { requiresAuth: true }]. *)
Definition dashboard_paths : list str :=
  [lit "/"; lit "/providers"; lit "/platforms"; lit "/plugins"; lit "/tools";
   lit "/logs"; lit "/settings"].

(** What the router makes of a path: the location handed to the guard,
    or the redirect of the record that matched. *)
Inductive resolved : Type :=
| Matched (to : route_location)
| Redirect (target : str).

(** [createRouter] is given neither [sensitive] nor [strict], so the
    expression of a static record [/x] is [^/x/?$] with the flag [i]: it
    accepts the record's path and that path followed by one slash, without
    regard to the case of letters. Against the ASCII letters of a record the
    flag [i] identifies exactly a letter [a-z] with its upper case: a code
    unit above 127 is never folded to one below 128. *)
Definition upper (c : N) : N :=
  if (97 <=? c) && (c <=? 122) then c - 32 else c.

Definition same_letters (a b : str) : bool :=
  bool_decide (upper <$> a = upper <$> b).

(** Whether the expression of the static record [record] accepts the
    path [p]. The record [/] is the one token of empty text after its slash,
    so its expression is [^//?$]. *)
Definition accepts (record p : str) : bool :=
  same_letters p record || same_letters p (record ++ lit "/").

(** What [.] of a regular expression does not match. *)
Definition line_terminator (c : N) : bool :=
  (c =? 10) || (c =? 13) || (c =? 8232) || (c =? 8233).

(** The last record, [/:pathMatch] with the custom expression that takes
    anything, repeated: the empty path, or a slash and whatever follows up to
    the end of the path, as long as no line terminator stands in it. *)
Definition catch_all (p : str) : bool :=
  (bool_decide (p = []) || startsWith p (lit "/")) &&
  forallb (λ c, negb (line_terminator c)) p.

(** [p] is the path of the location asked for, without query and hash.
    The records are tried with the static ones first. The location keeps
    the path as it was asked for. A path that no record accepts gives a
    location without records: its [meta] is empty, so [requiresAuth] is
    [undefined] there. *)
Definition resolve (p : str) : resolved :=
  if accepts (lit "/login") p then Matched (RouteLocation p false)
  else if existsb (λ record, accepts record p) dashboard_paths
       then Matched (RouteLocation p true)
  else if catch_all p then Redirect (lit "/")
  else Matched (RouteLocation p false).

(** A navigation to [p]: resolve, run the guard, follow redirects. [None]
    when [fuel] redirects were not enough. *)
Fixpoint navigate (fuel : nat) (auth : auth_store) (p : str) : option route_location :=
  match fuel with
  | O => None
  | S fuel' =>
      match resolve p with
      | Redirect q => navigate fuel' auth q
      | Matched to =>
          match beforeEach to auth with
          | Next => Some to
          | NextTo q => navigate fuel' auth q
          end
      end
  end.

End Router.

(** ** The message core *)

(** The Python core (dispatcher, pipeline stages, orchestrator) is not among
    the sources; every definition of this module follows the wording of the
    specification, section by section. Text is kept as in [JsString], and
    trimmed of the same white space. *)

Module Core.
Import JsString.

(** *** 4.1 EventDispatcher *)

Section Dispatcher.
Context {kind event outcome : Type} `{EqDecision kind}.
Variable kind_of : event → kind.

(** Modelled from the spec: a subscribed handler, which returns or fails
    ([None]) on an event. *)
Definition handler : Type := event → option outcome.

(** Modelled from the spec: the dispatcher's state, its subscriptions in
    registration order. *)
Record dispatcher : Type := Dispatcher { subscriptions : list (kind * handler) }.

(** Modelled from the spec: the dispatcher before the bootstrap. *)
Definition no_subscriptions : dispatcher := Dispatcher [].

(** Modelled from the spec: [Subscribe(eventKind, handler)] registers a
    handler. *)
Definition Subscribe (k : kind) (h : handler) (d : dispatcher) : dispatcher :=
  Dispatcher (subscriptions d ++ [(k, h)]).

(** Modelled from the spec: the handlers currently subscribed to a kind,
    in registration order. *)
Definition handlers_of (k : kind) (d : dispatcher) : list handler :=
  snd <$> filter (λ s, fst s = k) (subscriptions d).

(** Modelled from the spec: [Publish(event)] invokes every handler
    subscribed to the event's kind, in registration order; the failure of
    one ([None]) is kept apart and the others still run. *)
Definition Publish (e : event) (d : dispatcher) : list (option outcome) :=
  (λ h, h e) <$> handlers_of (kind_of e) d.

(** Modelled from the spec: the query for the kinds, among [known], that
    have no subscriber. *)
Definition unsubscribed (known : list kind) (d : dispatcher) : list kind :=
  filter (λ k, length (handlers_of k d) = 0%nat) known.

(** Modelled from the spec: how startup ends, before any adapter is
    started: in steady state with the wired dispatcher, or with a fatal
    [DispatcherWiringError] that names the kinds left without subscriber. *)
Inductive startup : Type :=
| Running (d : dispatcher)
| DispatcherWiringError (missing : list kind).

(** Modelled from the spec: the one bootstrap sequence, which wires every
    subscription before any adapter is started. *)
Definition wire (wiring : list (kind * handler)) : dispatcher :=
  foldl (λ d s, Subscribe (fst s) (snd s) d) no_subscriptions wiring.

(** Modelled from the spec: startup fails, loudly, when a required kind has
    no subscriber. *)
Definition Bootstrap (required : list kind) (wiring : list (kind * handler)) : startup :=
  let d := wire wiring in
  match unsubscribed required d with
  | [] => Running d
  | k :: ks => DispatcherWiringError (k :: ks)
  end.

End Dispatcher.

(** *** 3. Data model *)

(** Modelled from the spec: the variants of a message chain. *)
Inductive MessageComponent : Type :=
| TextComponent (text : str)
| MentionComponent (target_id : str)
| ReplyComponent (referenced_message_id : str)
| FaceComponent (code : str)
| ImageComponent (ref : str).

(** Modelled from the spec: the canonical message an adapter builds. *)
Record Message : Type := {
  message_id : str;
  platform_id : str;
  chat_id : str;
  sender_id : str;
  is_private : bool;
  raw_text : str;
  message_chain : list MessageComponent;
  received_at : N
}.

(** *** 4.2 WakingCheckStage *)

(** Modelled from the spec: the configuration the stage reads. *)
Record WakeConfig : Type := {
  wake_prefixes : list str;
  wake_words : gset str
}.

(** Modelled from the spec: the decision and, when waking, the clean text. *)
Inductive Waking : Type :=
| Wake (clean_text : str)
| NoWake.

(** Modelled from the spec: the chain holds a mention whose target is
    [self_id]. *)
Definition mentions (self_id : str) (m : Message) : bool :=
  existsb (λ c, match c with
                | MentionComponent target => bool_decide (target = self_id)
                | _ => false
                end)
          (message_chain m).

(** Modelled from the spec: the prefixes are tried in configured order and
    the first that [raw] starts with is the one applied. *)
Fixpoint first_prefix (prefixes : list str) (raw : str) : option str :=
  match prefixes with
  | [] => None
  | p :: rest => if startsWith raw p then Some p else first_prefix rest raw
  end.

(** Modelled from the spec: [raw] contains a configured wake word. *)
Definition has_wake_word (words : gset str) (raw : str) : bool :=
  bool_decide (set_Exists (λ w, includes raw w = true) words).

(** Modelled from the spec: section 4.2, the four signals in priority
    order, first match wins. *)
Definition waking_check (self_id : str) (cfg : WakeConfig) (m : Message) : Waking :=
  if mentions self_id m then Wake (raw_text m)
  else
    match first_prefix (wake_prefixes cfg) (raw_text m) with
    | Some p => Wake (trim (drop (length p) (raw_text m)))
    | None =>
        if has_wake_word (wake_words cfg) (raw_text m) then Wake (raw_text m)
        else if is_private m then Wake (trim (raw_text m))
        else NoWake
    end.

(** *** 4.4 AgentOrchestrator: the tool-calling loop *)

(** Modelled from the spec: the roles of a turn. *)
Inductive Role : Type := system | user | assistant | tool.

(** Modelled from the spec: a tool call as the provider issues it. *)
Record ToolCall : Type := {
  call_id : str;
  function_name : str;
  arguments : str
}.

(** Modelled from the spec: one turn of the conversation. [tool_calls] is
    non-empty only on assistant turns that request tools, [tool_call_id] is
    set only on tool turns. *)
Record ConversationTurn : Type := {
  role : Role;
  content : option str;
  tool_calls : list ToolCall;
  tool_call_id : option str
}.

(** Modelled from the spec: what [Provider.Complete] returns: plain
    content, one or more tool calls, or a failed call. *)
Inductive Completion : Type :=
| Content (text : str)
| ToolCalls (first : ToolCall) (more : list ToolCall)
| ProviderCallError (reason : str).

(** Modelled from the spec: the provider capability, with the tool schemas
    and options fixed. The first argument counts the calls made before, so
    that a provider may answer the same turns differently over time. *)
Definition Provider : Type := nat → list ConversationTurn → Completion.

(** Modelled from the spec: [Tool.Execute(arguments)]. *)
Inductive Execution : Type :=
| Result (text : str)
| ToolExecutionError (reason : str).

(** Modelled from the spec: the tool capability, by its [Execute]. *)
Definition Tool : Type := str → Execution.

(** Modelled from the spec: the bounds the loop is configured with. *)
Record OrchestratorConfig : Type := {
  max_tool_rounds : nat;
  max_retries : nat
}.

(** Modelled from the spec: the states of the loop. *)
Inductive State : Type :=
| Calling
| AwaitingToolResults (pending : list ToolCall)
| Done (answer : str)
| Failed (reason : str)
| Capped.

(** Modelled from the spec: a run of the orchestrator: its state, the turns
    accumulated, the round counter, the retries spent on the current call
    and the provider calls made so far. *)
Record Run : Type := {
  state : State;
  turns : list ConversationTurn;
  round : nat;
  retries : nat;
  provider_calls : nat
}.

(** Modelled from the spec: the assistant turn that carries the tool calls
    of a response verbatim. *)
Definition assistant_turn (calls : list ToolCall) : ConversationTurn :=
  {| role := assistant; content := None; tool_calls := calls; tool_call_id := None |}.

(** Modelled from the spec: the tool turn that answers the call [c]. *)
Definition tool_turn (c : ToolCall) (payload : str) : ConversationTurn :=
  {| role := tool; content := Some payload; tool_calls := [];
     tool_call_id := Some (call_id c) |}.

(** Modelled from the spec: the payload of a failed tool execution. *)
Definition error_payload (reason : str) : str := lit "error: " ++ reason.

(** Modelled from the spec: resolve the named tool and execute it; a
    failure, an unknown name included, becomes an error payload and the loop
    goes on. *)
Definition execute (registry : gmap str Tool) (c : ToolCall) : str :=
  match registry !! function_name c with
  | Some run_tool =>
      match run_tool (arguments c) with
      | Result text => text
      | ToolExecutionError reason => error_payload reason
      end
  | None => error_payload (lit "unknown tool " ++ function_name c)
  end.

(** Modelled from the spec: the first [Calling] entry. The spec gives the
    counter no first value; its testable property 6 ([max_tool_rounds = 5]:
    capped after exactly five rounds, no sixth provider call) fixes it: the
    first entry is round 1. *)
Definition start (conversation : list ConversationTurn) : Run :=
  {| state := Calling; turns := conversation; round := 1; retries := 0;
     provider_calls := 0 |}.

(** Modelled from the spec: one transition of the state machine of section
    4.4. *)
Definition step (cfg : OrchestratorConfig) (provider : Provider)
    (registry : gmap str Tool) (r : Run) : Run :=
  match state r with
  | Calling =>
      match provider (provider_calls r) (turns r) with
      | Content text =>
          {| state := Done text; turns := turns r; round := round r;
             retries := retries r; provider_calls := S (provider_calls r) |}
      | ToolCalls c cs =>
          {| state := AwaitingToolResults (c :: cs);
             turns := turns r ++ [assistant_turn (c :: cs)];
             round := round r; retries := 0;
             provider_calls := S (provider_calls r) |}
      | ProviderCallError reason =>
          if (retries r <? max_retries cfg)%nat
          then {| state := Calling; turns := turns r; round := round r;
                  retries := S (retries r);
                  provider_calls := S (provider_calls r) |}
          else {| state := Failed reason; turns := turns r; round := round r;
                  retries := retries r; provider_calls := S (provider_calls r) |}
      end
  | AwaitingToolResults (c :: rest) =>
      {| state := AwaitingToolResults rest;
         turns := turns r ++ [tool_turn c (execute registry c)];
         round := round r; retries := retries r;
         provider_calls := provider_calls r |}
  | AwaitingToolResults [] =>
      if (max_tool_rounds cfg <? S (round r))%nat
      then {| state := Capped; turns := turns r; round := round r;
              retries := retries r; provider_calls := provider_calls r |}
      else {| state := Calling; turns := turns r; round := S (round r);
              retries := retries r; provider_calls := provider_calls r |}
  | Done _ | Failed _ | Capped => r
  end.

(** Modelled from the spec: [fuel] transitions of the state machine. *)
Fixpoint run (cfg : OrchestratorConfig) (provider : Provider)
    (registry : gmap str Tool) (fuel : nat) (r : Run) : Run :=
  match fuel with
  | O => r
  | S fuel' => run cfg provider registry fuel' (step cfg provider registry r)
  end.

(** Modelled from the spec: what the orchestrator returns. *)
Inductive Outcome : Type :=
| Answer (text : str)
| ProviderFailure (reason : str)
| ToolLoopExceeded.

(** Modelled from the spec: the outcome of a run that has ended. *)
Definition outcome_of (r : Run) : option Outcome :=
  match state r with
  | Done text => Some (Answer text)
  | Failed reason => Some (ProviderFailure reason)
  | Capped => Some ToolLoopExceeded
  | Calling | AwaitingToolResults _ => None
  end.

(** Modelled from the spec: a run that has reached [Done], [Failed] or
    [Capped]. *)
Definition final (r : Run) : Prop := is_Some (outcome_of r).

(** Modelled from the spec: the orchestrator run for [fuel] transitions:
    [None] while it has not reached a final state. *)
Definition orchestrate (cfg : OrchestratorConfig) (provider : Provider)
    (registry : gmap str Tool) (fuel : nat)
    (conversation : list ConversationTurn) : option Outcome :=
  outcome_of (run cfg provider registry fuel (start conversation)).

(** Modelled from the spec: the bounded result of a capped run. *)
Definition limit_notice : str := lit "unable to complete within tool-call limit".
(** Modelled from the spec: the notice of a provider that kept failing. *)
Definition failure_notice (reason : str) : str :=
  lit "the model could not be reached: " ++ reason.
(** Modelled from the spec: the notice of the stage when no provider can
    be resolved. *)
Definition no_provider_notice : str := lit "no model provider is configured".

(** Modelled from the spec: the text of the reply for an outcome. *)
Definition reply_text (o : Outcome) : str :=
  match o with
  | Answer text => text
  | ProviderFailure reason => failure_notice reason
  | ToolLoopExceeded => limit_notice
  end.

(** Modelled from the spec: the adjacency invariant of section 4.4 on a
    sequence of turns: every tool turn has, before it, an assistant turn
    whose tool calls include its [tool_call_id], with nothing but tool turns
    in between. *)
Definition anchored (ts : list ConversationTurn) : Prop :=
  ∀ i t, ts !! i = Some t → role t = tool →
    ∃ j a id,
      (j < i)%nat ∧ ts !! j = Some a ∧ role a = assistant ∧
      tool_call_id t = Some id ∧ id ∈ (call_id <$> tool_calls a) ∧
      ∀ k t', (j < k < i)%nat → ts !! k = Some t' → role t' = tool.





(** Modelled from the spec: a provider that always returns tool calls
    (testable property 6). *)
Definition always_calls_tools (provider : Provider) : Prop :=
  ∀ n ts, ∃ c cs, provider n ts = ToolCalls c cs.

(** *** 4.3 AgentProcessingStage and the pipeline *)

(** Modelled from the spec: a configured provider. *)
Record ProviderConfig : Type := {
  provider_id : str;
  type_tag : str;
  model : str;
  api_base_url : str;
  api_key : option str;
  display_name : str;
  provider_is_default : bool
}.

(** Modelled from the spec: a persona. *)
Record Persona : Type := {
  persona_name : str;
  persona_description : str;
  system_prompt : str;
  persona_is_default : bool
}.

(** Modelled from the spec: the configuration the agent stage reads. *)
Record AgentConfig : Type := {
  providers : list ProviderConfig;
  personas : list Persona;
  history_window : nat;
  orchestrator : OrchestratorConfig
}.

(** Modelled from the spec: [Reply], reduced to its text and target. *)
Record Reply : Type := { reply_content : str; target_chat_id : str }.

(** Modelled from the spec: the provider of a run: the override the context
    metadata carries under [provider_id] when it names a configured
    provider, else the default one, else the first one configured; none
    when no provider is configured. *)
Definition resolve_provider (metadata : gmap str str) (cfg : AgentConfig)
  : option ProviderConfig :=
  let fallback :=
    match find provider_is_default (providers cfg) with
    | Some p => Some p
    | None => head (providers cfg)
    end in
  match metadata !! lit "provider_id" with
  | Some wanted =>
      match find (λ p, bool_decide (provider_id p = wanted)) (providers cfg) with
      | Some p => Some p
      | None => fallback
      end
  | None => fallback
  end.

(** Modelled from the spec: a turn of plain content. *)
Definition text_turn (r : Role) (text : str) : ConversationTurn :=
  {| role := r; content := Some text; tool_calls := []; tool_call_id := None |}.

(** Modelled from the spec: the conversation handed to the orchestrator:
    the system turn of the default persona when it has a prompt, the last
    [history_window] turns of the chat, oldest first, and the user turn with
    the clean text. *)
Definition initial_turns (cfg : AgentConfig) (history : list ConversationTurn)
    (clean : str) : list ConversationTurn :=
  match find persona_is_default (personas cfg) with
  | Some p => if truthy (system_prompt p) then [text_turn system (system_prompt p)] else []
  | None => []
  end
  ++ drop (length history - history_window cfg)%nat history
  ++ [text_turn user clean].

(** Modelled from the spec: how the pipeline ends for one message: no
    stage after the waking check ran, or a reply was produced. *)
Inductive Processed : Type :=
| NotWoken
| Replied (r : Reply).

(** Modelled from the spec: the pipeline from the waking check to the
    reply, for [fuel] transitions of the orchestrator; [None] when they were
    not enough. [backend] is the provider capability of a configuration,
    [history] the stored turns of a chat. *)
Definition process_message (self_id : str) (wake : WakeConfig) (cfg : AgentConfig)
    (backend : ProviderConfig → Provider) (registry : gmap str Tool)
    (history : str → list ConversationTurn) (metadata : gmap str str)
    (fuel : nat) (m : Message) : option Processed :=
  match waking_check self_id wake m with
  | NoWake => Some NotWoken
  | Wake clean =>
      match resolve_provider metadata cfg with
      | None =>
          Some (Replied {| reply_content := no_provider_notice;
                           target_chat_id := chat_id m |})
      | Some p =>
          match orchestrate (orchestrator cfg) (backend p) registry fuel
                  (initial_turns cfg (history (chat_id m)) clean) with
          | Some o =>
              Some (Replied {| reply_content := reply_text o;
                               target_chat_id := chat_id m |})
          | None => None
          end
      end
  end.

(** *** Sample collaborators *)

Definition get_time_call : ToolCall :=
  {| call_id := lit "1"; function_name := lit "get_time"; arguments := lit "{}" |}.

(** Asks for the time once, then answers. *)
Definition clock_provider : Provider :=
  λ n _, match n with
         | O => ToolCalls get_time_call []
         | S _ => Content (lit "It is 12:00")
         end.

(** Asks for the time on every call. *)
Definition looping_provider : Provider := λ _ _, ToolCalls get_time_call [].

Definition clock_registry : gmap str Tool :=
  {[ lit "get_time" := (λ _ : str, Result (lit "12:00")) ]}.

Definition five_rounds : OrchestratorConfig :=
  {| max_tool_rounds := 5; max_retries := 2 |}.

(** An installation with no provider configured. *)
Definition unconfigured : AgentConfig :=
  {| providers := []; personas := []; history_window := 20;
     orchestrator := five_rounds |}.



(** A message of chat [c1] on which the stages can be run. *)
Definition sample_message (private : bool) (text : str) (chain : list MessageComponent)
  : Message :=
  {| message_id := lit "m1"; platform_id := lit "telegram"; chat_id := lit "c1";
     sender_id := lit "u1"; is_private := private; raw_text := text;
     message_chain := chain; received_at := 0 |}.

End Core.

(** ** The auth store and the HTTP client of the dashboard *)

(** [stores/auth.ts] and the interceptors of [services/api.ts]. *)

Module AuthStore.
Import JsString Router.

(** What the store's functions read and write: the refs of the store,
    [localStorage], [api.defaults.headers.common['Authorization']] and the
    address assigned to [window.location.href], if any. *)
Record session : Type :=
  Session { auth : auth_store;
            localStorage : gmap str str;
            default_authorization : option str;
            location_href : option str }.

Definition bearer (t : str) : str := lit "Bearer " ++ t.

(** The store as [defineStore] creates it: both refs read from
    [localStorage]. *)
Definition useAuthStore (storage : gmap str str) : session :=
  Session (AuthStore (storage !! lit "token") (storage !! lit "username"))
          storage None None.

(** How a request of the axios instance settles: a response, or an error
    with [error.response?.status]. *)
Inductive settled (A : Type) : Type :=
| Resolved (data : A)
| Rejected (status : option N).
Arguments Resolved {A} data.
Arguments Rejected {A} status.

(** The response interceptor: on a 401 it empties [localStorage] of the
    token and the user name and sends the window to [/login]. *)
Definition on_response {A : Type} (r : settled A) (s : session) : session :=
  match r with
  | Rejected (Some st) =>
      if st =? 401 then
        Session (auth s)
                (delete (lit "username") (delete (lit "token") (localStorage s)))
                (default_authorization s) (Some (lit "/login"))
      else s
  | _ => s
  end.

(** The request interceptor: the [Authorization] header a request leaves
    with. *)
Definition request_authorization (s : session) : option str :=
  match localStorage s !! lit "token" with
  | Some t => if truthy t then Some (bearer t) else default_authorization s
  | None => default_authorization s
  end.

(** [logout()] *)
Definition logout (s : session) : session :=
  Session (AuthStore None None)
          (delete (lit "username") (delete (lit "token") (localStorage s)))
          None (location_href s).

(** The body of the login response as the refs of the store are typed:
    strings when present. *)
Record login_data : Type :=
  LoginData { data_token : option str; data_username : option str }.

(** [login(user, password)], given how the request settles; a missing user
    name is stored by [setItem] as the text [undefined]. *)
Definition login (response : settled login_data) (s : session) : session * bool :=
  let s1 := on_response response s in
  match response with
  | Resolved d =>
      match data_token d with
      | Some t =>
          if truthy t then
            (Session (AuthStore (Some t) (data_username d))
                     (<[lit "username" := default (lit "undefined") (data_username d)]>
                        (<[lit "token" := t]> (localStorage s1)))
                     (Some (bearer t)) (location_href s1), true)
          else (s1, false)
      | None => (s1, false)
      end
  | Rejected _ => (s1, false)
  end.

(** [checkAuth()], given how the verify request settles. *)
Definition checkAuth (response : settled unit) (s : session) : session * bool :=
  match token (auth s) with
  | Some t =>
      if truthy t then
        let s0 := Session (auth s) (localStorage s) (Some (bearer t)) (location_href s) in
        let s1 := on_response response s0 in
        match response with
        | Resolved _ => (s1, true)
        | Rejected _ => (logout s1, false)
        end
      else (s, false)
  | None => (s, false)
  end.

(** The calls a page makes on the store. *)
Inductive store_call : Type :=
| Login (response : settled login_data)
| Logout
| CheckAuth (response : settled unit).

Definition call (s : session) (c : store_call) : session :=
  match c with
  | Login r => fst (login r s)
  | Logout => logout s
  | CheckAuth r => fst (checkAuth r s)
  end.

Definition calls (cs : list store_call) (s : session) : session := foldl call s cs.

(** The store and [localStorage] hold the same token, unless the window
    is on its way to [/login]. *)
Definition in_step (s : session) : Prop :=
  location_href s = None → token (auth s) = localStorage s !! lit "token".

End AuthStore.

(** ** The log view ([dashboard/src/views/LogsView.vue]) *)

Module LogsView.
Import JsString.

Record LogEntry : Type :=
  { timestamp : str; level : str; logger : str; message : str }.

Section Filter.
(** [String.prototype.toLowerCase], taken as given. *)
Variable toLowerCase : str → str.

Definition matches_query (query : str) (log : LogEntry) : bool :=
  includes (toLowerCase (message log)) query ||
  includes (toLowerCase (logger log)) query.

(** The computed [filteredLogs], from the refs [logs], [levelFilter] and
    [filter]. *)
Definition filteredLogs (logs : list LogEntry) (levelFilter query_text : str)
  : list LogEntry :=
  let by_level :=
    if bool_decide (levelFilter ≠ lit "all")
    then filter (λ log, level log = levelFilter) logs
    else logs in
  let by_query :=
    if truthy query_text
    then filter (λ log, matches_query (toLowerCase query_text) log = true) by_level
    else by_level in
  take 200 by_query.

End Filter.

(** The refresh state of the view: the ref [autoRefresh], the variable
    [refreshInterval], and of the browser the intervals of this view that
    are running and the next handle [setInterval] gives out (handles are
    integers greater than zero). *)
Record view : Type :=
  View { autoRefresh : bool;
         refreshInterval : option positive;
         running : gset positive;
         next_handle : positive }.

(** The view as [setup] leaves it. *)
Definition setup : view := View true None ∅ 1%positive.

Definition clearInterval (h : positive) (v : view) : view :=
  View (autoRefresh v) (refreshInterval v) (running v ∖ {[h]}) (next_handle v).

(** [startAutoRefresh()] *)
Definition startAutoRefresh (v : view) : view :=
  let v1 := match refreshInterval v with
            | Some h => clearInterval h v
            | None => v
            end in
  View (autoRefresh v1) (Some (next_handle v1))
       ({[next_handle v1]} ∪ running v1) (next_handle v1 + 1)%positive.

(** [stopAutoRefresh()] *)
Definition stopAutoRefresh (v : view) : view :=
  match refreshInterval v with
  | Some h =>
      View (autoRefresh v) None (running v ∖ {[h]}) (next_handle v)
  | None => v
  end.

(** [toggleAutoRefresh()] *)
Definition toggleAutoRefresh (v : view) : view :=
  let v1 := View (negb (autoRefresh v)) (refreshInterval v) (running v) (next_handle v) in
  if autoRefresh v1 then startAutoRefresh v1 else stopAutoRefresh v1.

(** The [onMounted] and [onUnmounted] hooks, the fetch of the logs apart. *)
Definition onMounted (v : view) : view :=
  if autoRefresh v then startAutoRefresh v else v.

Definition onUnmounted (v : view) : view := stopAutoRefresh v.

(** The interval the view holds a handle of, as a set. *)
Definition held (v : view) : gset positive :=
  match refreshInterval v with
  | Some h => {[h]}
  | None => ∅
  end.

Inductive event : Type := Mounted | Unmounted | Toggled | Started | Stopped.

Definition handle (v : view) (e : event) : view :=
  match e with
  | Mounted => onMounted v
  | Unmounted => onUnmounted v
  | Toggled => toggleAutoRefresh v
  | Started => startAutoRefresh v
  | Stopped => stopAutoRefresh v
  end.

Definition after (events : list event) (v : view) : view := foldl handle v events.

End LogsView.

(** * Properties *)

(** ** String primitives *)

Module JsStringFacts.
Import JsString.

Lemma split_no_sep c s : c ∉ s → split c s = [s].
Proof.
  induction s as [|x s IH]; intros Hc; simpl; [done|].
  apply not_elem_of_cons in Hc as [Hx Hs].
  destruct (N.eqb_spec x c) as [->|_]; [done|].
  by rewrite (IH Hs).
Qed.

Lemma split_app_sep c x r : c ∉ x → split c (x ++ c :: r) = x :: split c r.
Proof.
  induction x as [|y x IH]; intros Hc; simpl.
  - by rewrite N.eqb_refl.
  - apply not_elem_of_cons in Hc as [Hy Hx].
    destruct (N.eqb_spec y c) as [->|_]; [done|].
    by rewrite (IH Hx).
Qed.

Lemma trimStart_head s :
  (∀ c, head s = Some c → is_white_space c = false) → trimStart s = s.
Proof. destruct s as [|c s]; simpl; [done|]. intros H. by rewrite (H c eq_refl). Qed.

Lemma trimEnd_last s :
  (∀ c, last s = Some c → is_white_space c = false) → trimEnd s = s.
Proof.
  intros H. unfold trimEnd. rewrite trimStart_head; [apply reverse_involutive|].
  intros c Hc. apply H. by rewrite <- head_reverse.
Qed.

End JsStringFacts.

(** ** The dashboard client *)

Module DashboardFacts.
Import JsString JsStringFacts Dashboard.

(** Splitting the rendered field gives back the items, all but the first
    with the blank of the separator in front. *)
Lemma split_render x l :
  comma ∉ x → Forall (fun s => comma ∉ s) l →
  split comma (join [comma; space] (x :: l)) = x :: map (cons space) l.
Proof.
  revert x. induction l as [|y l IH]; intros x Hx Hl.
  - simpl. by apply split_no_sep.
  - apply Forall_cons in Hl as [Hy Hl].
    replace (join [comma; space] (x :: y :: l))
      with (x ++ comma :: join [comma; space] ((space :: y) :: l))
      by (by destruct l).
    rewrite split_app_sep by done.
    rewrite IH; [done| |done].
    apply not_elem_of_cons. split; [done|exact Hy].
Qed.

Lemma plain_prefix_spec s :
  plain_prefix s = true →
  s ≠ [] ∧ (comma ∉ s) ∧
  (∀ c, head s = Some c → is_white_space c = false) ∧
  (∀ c, last s = Some c → is_white_space c = false).
Proof.
  unfold plain_prefix. rewrite !andb_true_iff.
  intros [[[Hne Hc] Hh] Hl]. repeat split.
  - by destruct s.
  - intros Hin. apply negb_true_iff, not_true_iff_false in Hc. apply Hc.
    apply existsb_exists. exists comma. split; [by apply list_elem_of_In|apply N.eqb_refl].
  - intros c Hc'. rewrite Hc' in Hh. by apply negb_true_iff.
  - intros c Hc'. rewrite Hc' in Hl. by apply negb_true_iff.
Qed.

Lemma trim_plain s : plain_prefix s = true → trim s = s.
Proof.
  intros (_ & _ & Hh & Hl)%plain_prefix_spec. unfold trim.
  rewrite trimStart_head by done. by apply trimEnd_last.
Qed.

Lemma trim_space_plain s : plain_prefix s = true → trim (space :: s) = s.
Proof. intros H. exact (trim_plain s H). Qed.

Lemma plain_truthy s : plain_prefix s = true → truthy s = true.
Proof. unfold plain_prefix. rewrite !andb_true_iff. tauto. Qed.

Lemma parse_items l :
  forallb plain_prefix l = true →
  filter (fun s => truthy s = true) (map trim (map (cons space) l)) = l.
Proof.
  induction l as [|s l IH]; [done|].
  cbn [forallb map]. intros [Hs Hl]%andb_true_iff.
  rewrite trim_space_plain by done.
  rewrite filter_cons_True by (by apply plain_truthy).
  by rewrite IH.
Qed.

(** *** [api] *)

(** [api] throws exactly when the status is not ok or the body says
    [status: "error"]. *)
Lemma api_throws_iff res :
  throws (api (Responded res)) ↔
  ok res = false ∨ strict_eq_str (get (body_of res) (lit "status")) (lit "error") = true.
Proof.
  unfold throws, api.
  destruct (ok res); simpl.
  - destruct (strict_eq_str _ _); simpl.
    + split; [by right|by eexists].
    + split; [by intros [e ?]|by intros [?|?]].
  - split; [by left|by eexists].
Qed.

(** C9 as stated does not hold: a body whose [data] member is present
    with the value [null] comes back whole, not as its [data]. *)
Lemma api_data_null_counterexample :
  ¬ (∀ res d,
       ok res = true →
       strict_eq_str (get (body_of res) (lit "status")) (lit "error") = false →
       get (body_of res) (lit "data") = Some d →
       api (Responded res) = Return d).
Proof.
  intros H.
  specialize (H (Response 200
                   (Some (JObj [(lit "status", JStr (lit "ok")); (lit "data", JNull)])))
                JNull eq_refl eq_refl eq_refl).
  vm_compute in H. discriminate H.
Qed.

(** C9 (amended): once [fetch] has delivered a response, [api] throws
    exactly when the status is not ok or the parsed body has
    [status === "error"]; otherwise it returns the body's [data] member when
    that is present and not [null], and the whole body when [data] is absent
    or [null]; a body that is not JSON, on an ok status, yields [null]. A
    [fetch] that rejects is rethrown as it is. *)
Theorem api_behaviour (res : response) (e : js_error) :
  api (Rejected e) = Throw e ∧
  (throws (api (Responded res)) ↔
     ok res = false ∨
     strict_eq_str (get (body_of res) (lit "status")) (lit "error") = true) ∧
  (ok res = true →
   strict_eq_str (get (body_of res) (lit "status")) (lit "error") = false →
   (∀ d, get (body_of res) (lit "data") = Some d → d ≠ JNull →
         api (Responded res) = Return d) ∧
   (get (body_of res) (lit "data") = None ∨
    get (body_of res) (lit "data") = Some JNull →
    api (Responded res) = Return (body_of res))) ∧
  (ok res = true → parsed res = None → api (Responded res) = Return JNull).
Proof.
  split; [done|]. split; [apply api_throws_iff|]. split.
  - intros Hok Hst. unfold api. rewrite Hok, Hst. simpl.
    split.
    + intros d -> Hd. by destruct d.
    + by intros [->| ->].
  - intros Hok Hp. unfold api, body_of. rewrite Hok, Hp. reflexivity.
Qed.

Lemma api_behaviour_witness :
  api (Responded (Response 200
         (Some (JObj [(lit "status", JStr (lit "ok"));
                      (lit "data", JArr [JStr (lit "x")])]))))
    = Return (JArr [JStr (lit "x")]) ∧
  api (Responded (Response 200 None)) = Return JNull.
Proof.
  split.
  - apply (api_behaviour
             (Response 200
                (Some (JObj [(lit "status", JStr (lit "ok"));
                             (lit "data", JArr [JStr (lit "x")])])))
             (Error []));
      [reflexivity|reflexivity|reflexivity|discriminate].
  - apply (api_behaviour (Response 200 None) (Error [])); reflexivity.
Defined.

(** *** [sendChat]: the history posted *)

Lemma slice_last_snoc {A : Type} (n : nat) (l : list A) (x : A) :
  slice_last (S n) (l ++ [x]) = slice_last n l ++ [x].
Proof.
  unfold slice_last. rewrite length_app. simpl length.
  replace (length l + 1 - S n)%nat with (length l - n)%nat by lia.
  apply drop_app_le. lia.
Qed.

Lemma slice_last_length {A : Type} (n : nat) (l : list A) :
  (length (slice_last n l) ≤ n)%nat.
Proof. unfold slice_last. rewrite length_drop. lia. Qed.

(** C4 as stated does not hold: with twenty earlier turns the posted
    history is not those twenty followed by the user turn. *)
Lemma chat_window_counterexample :
  ¬ (∀ (history : list chat_entry) (msg providerId now : str),
       body_history (chat_request (history ++ [user_entry msg now]) msg providerId)
       = (to_turn <$> slice_last 20 (filter not_system history))
           ++ [Turn (lit "user") (Some (JStr msg))]).
Proof.
  intros H.
  specialize (H (replicate 20 (ChatEntry (lit "assistant") (Some (JStr (lit "ok"))) None))
                (lit "hi") [] []).
  apply (f_equal length) in H. vm_compute in H. discriminate H.
Qed.

(** C4 (amended): the history posted with a message is the last twenty
    non-system entries of the chat history counted with the entry of the
    message itself: the nineteen most recent earlier non-system turns, oldest
    first, then the user turn carrying the message text. *)
Theorem chat_history_window (history : list chat_entry) (msg providerId now : str) :
  body_history (chat_request (history ++ [user_entry msg now]) msg providerId)
  = (to_turn <$> slice_last 19 (filter not_system history))
      ++ [Turn (lit "user") (Some (JStr msg))]
  ∧ (length (body_history
       (chat_request (history ++ [user_entry msg now]) msg providerId)) ≤ 20)%nat
  ∧ body_message (chat_request (history ++ [user_entry msg now]) msg providerId) = msg.
Proof.
  assert (body_history (chat_request (history ++ [user_entry msg now]) msg providerId)
          = (to_turn <$> slice_last 19 (filter not_system history))
              ++ [Turn (lit "user") (Some (JStr msg))]) as E.
  { unfold chat_request. cbn [body_history].
    rewrite filter_app.
    rewrite (filter_cons_True not_system (user_entry msg now) []) by (by vm_compute).
    rewrite filter_nil, slice_last_snoc, fmap_app. reflexivity. }
  split; [exact E|]. split; [|reflexivity].
  rewrite E, length_app, length_fmap. cbn [length].
  pose proof (slice_last_length 19 (filter not_system history)). lia.
Qed.

(** *** Personas *)

(** C7 as stated does not hold: nothing stops a second persona from
    taking a name already in use, and then both are shown as the default. *)
Lemma persona_names_counterexample :
  ¬ (∀ ops : list persona_op,
       NoDup (names (run_ops ops no_personas)) ∧
       (default_count (run_ops ops no_personas) ≤ 1)%nat).
Proof.
  intros H.
  destruct (H [Create (lit "Aria") [] (lit "You are Aria.");
               Create (lit "Aria") [] (lit "You are someone else.");
               SetDefault (lit "Aria")]) as [_ Hd].
  vm_compute in Hd. lia.
Qed.

Lemma filter_none {A : Type} (P : A → Prop) `{!∀ x, Decision (P x)} (l : list A) :
  (∀ x, x ∈ l → ¬ P x) → filter P l = [].
Proof.
  induction l as [|x l IH]; intros Hl; [done|].
  rewrite filter_cons_False by (apply Hl; left).
  apply IH. intros y Hy. apply Hl. by right.
Qed.

Lemma default_count_NoDup cfg :
  NoDup (names cfg) → (default_count cfg ≤ 1)%nat.
Proof.
  unfold default_count, names, isActive.
  generalize (default_persona cfg) as d. intros d.
  induction (personas cfg) as [|p l IH]; [simpl; lia|].
  rewrite fmap_cons, NoDup_cons. intros [Hp Hl].
  destruct (decide (name p = d)) as [E|E].
  - rewrite filter_cons_True by (by rewrite bool_decide_eq_true).
    assert (filter (λ q, bool_decide (name q = d) = true) l = []) as ->; [|simpl; lia].
    apply filter_none. intros q Hq.
    rewrite bool_decide_eq_true. intros Eq. apply Hp.
    rewrite E, <- Eq. by apply list_elem_of_fmap_2.
  - rewrite filter_cons_False by (by rewrite bool_decide_eq_true).
    by apply IH.
Qed.

Lemma NoDup_snoc_fresh (l : list str) (x : str) : NoDup l → x ∉ l → NoDup (l ++ [x]).
Proof.
  intros Hl Hx. apply NoDup_app. split; [done|]. split; [|apply NoDup_singleton].
  intros y Hy ->%list_elem_of_singleton. done.
Qed.

Lemma NoDup_insert_fresh (l : list str) (i : nat) (x : str) :
  (i < length l)%nat → NoDup l → x ∉ delete i l → NoDup (<[i:=x]> l).
Proof.
  intros Hi Hl Hx.
  assert (NoDup (delete i l)) as Hd by (eapply sublist_NoDup; [done|apply sublist_delete]).
  rewrite insert_take_drop by done. rewrite delete_take_drop in Hx, Hd.
  apply NoDup_app in Hd as (Ht & Htd & Hdr).
  apply not_elem_of_app in Hx as [Hxt Hxd].
  apply NoDup_app. split; [done|]. split.
  - intros y Hy [->|Hy']%elem_of_cons; [done|]. by apply (Htd y).
  - by apply NoDup_cons.
Qed.

Lemma apply_op_NoDup cfg op :
  NoDup (names cfg) → keeps_names_apart cfg op = true →
  NoDup (names (apply_op cfg op)).
Proof.
  intros Hn Hk. destruct op as [n d p|i n d p|i|n]; simpl in *.
  - unfold savePersona. repeat case_match; try done.
    unfold names, put_personas. simpl. rewrite fmap_app. simpl.
    apply NoDup_snoc_fresh; [done|]. by apply bool_decide_eq_true in Hk.
  - unfold savePersona. destruct (negb (truthy (trim n))); [done|].
    destruct (negb (truthy (trim p))); [done|].
    destruct (Nat.ltb_spec i (length (personas cfg))) as [Hi|Hi].
    + unfold names, put_personas. simpl. rewrite list_fmap_insert. simpl.
      apply bool_decide_eq_true in Hk.
      apply NoDup_insert_fresh; [by rewrite length_fmap|done|done].
    + unfold names, put_personas. simpl. rewrite fmap_app. simpl.
      apply NoDup_snoc_fresh; [done|]. by apply bool_decide_eq_true in Hk.
  - unfold deletePersona. case_match; [|done].
    unfold names, put_personas. simpl. rewrite list_fmap_delete.
    eapply sublist_NoDup; [done|apply sublist_delete].
  - done.
Qed.

(** C7 (amended): persona names stay unique, and at most one persona is
    shown as the default, after every sequence of create, edit, delete and
    set-default operations in which no create or edit writes a name that
    another persona already bears; the page itself does not refuse such a
    name. *)
Theorem persona_names_unique (cfg : config) (ops : list persona_op) :
  NoDup (names cfg) →
  all_keep_names_apart cfg ops = true →
  NoDup (names (run_ops ops cfg)) ∧ (default_count (run_ops ops cfg) ≤ 1)%nat.
Proof.
  intros Hn Hk.
  assert (NoDup (names (run_ops ops cfg))) as H.
  { revert cfg Hn Hk. induction ops as [|op ops IH]; intros cfg Hn Hk; [done|].
    simpl in Hk. apply andb_true_iff in Hk as [Hop Hops].
    unfold run_ops. simpl. apply IH; [|done].
    by apply apply_op_NoDup. }
  split; [done|]. by apply default_count_NoDup.
Qed.

Lemma persona_names_unique_witness :
  names (run_ops [Create (lit "Aria") [] (lit "You are Aria.");
                  Create (lit "Bo") [] (lit "You are Bo.");
                  Edit 0 (lit " Cy ") [] (lit "You are Cy.");
                  SetDefault (lit "Bo");
                  Delete 0] no_personas) = [lit "Bo"] ∧
  NoDup (names (run_ops [Create (lit "Aria") [] (lit "You are Aria.");
                  Create (lit "Bo") [] (lit "You are Bo.");
                  Edit 0 (lit " Cy ") [] (lit "You are Cy.");
                  SetDefault (lit "Bo");
                  Delete 0] no_personas)) ∧
  (default_count (run_ops [Create (lit "Aria") [] (lit "You are Aria.");
                  Create (lit "Bo") [] (lit "You are Bo.");
                  Edit 0 (lit " Cy ") [] (lit "You are Cy.");
                  SetDefault (lit "Bo");
                  Delete 0] no_personas) ≤ 1)%nat.
Proof.
  split; [reflexivity|].
  apply persona_names_unique; [apply NoDup_nil_2|reflexivity].
Defined.

End DashboardFacts.

(** ** The router guard *)

Module RouterFacts.
Import JsString Router.

Lemma navigate_login auth fuel :
  isAuthenticated auth = false →
  navigate (S fuel) auth (lit "/login") = Some (RouteLocation (lit "/login") false).
Proof.
  intros H. cbn [navigate].
  change (resolve (lit "/login")) with (Matched (RouteLocation (lit "/login") false)).
  unfold beforeEach. cbn [requiresAuth path andb]. by rewrite H, andb_false_r.
Qed.

Lemma navigate_home auth fuel :
  isAuthenticated auth = true →
  navigate (S fuel) auth (lit "/") = Some (RouteLocation (lit "/") true).
Proof.
  intros H. cbn [navigate].
  change (resolve (lit "/")) with (Matched (RouteLocation (lit "/") true)).
  unfold beforeEach. cbn [requiresAuth path andb]. rewrite H. cbn [negb].
  by rewrite bool_decide_eq_false_2.
Qed.

Lemma navigate_S fuel auth p :
  navigate (S fuel) auth p =
  match resolve p with
  | Redirect q => navigate fuel auth q
  | Matched to =>
      match beforeEach to auth with
      | Next => Some to
      | NextTo q => navigate fuel auth q
      end
  end.
Proof. reflexivity. Qed.

Lemma beforeEach_open to auth :
  requiresAuth to = true → isAuthenticated auth = true →
  path to ≠ lit "/login" → beforeEach to auth = Next.
Proof.
  intros Hr Ha Hp. unfold beforeEach. rewrite Hr, Ha. simpl.
  by rewrite bool_decide_eq_false_2.
Qed.

(** Every navigation settles within three passes, on a view the guard lets
    through. *)
Lemma accepts_login_exact p : accepts (lit "/login") p = false → p ≠ lit "/login".
Proof. intros H ->. by vm_compute in H. Qed.

Lemma beforeEach_public_away p auth :
  p ≠ lit "/login" → beforeEach (RouteLocation p false) auth = Next.
Proof.
  intros Hp. unfold beforeEach. cbn [requiresAuth path andb].
  by rewrite bool_decide_eq_false_2.
Qed.

Lemma beforeEach_public_signed_out p auth :
  isAuthenticated auth = false → beforeEach (RouteLocation p false) auth = Next.
Proof.
  intros Ha. unfold beforeEach. cbn [requiresAuth path andb].
  by rewrite Ha, andb_false_r.
Qed.

Lemma navigate_settles auth p :
  ∃ to, navigate 3 auth p = Some to ∧
        (requiresAuth to = true → isAuthenticated auth = true).
Proof.
  rewrite navigate_S. unfold resolve.
  destruct (isAuthenticated auth) eqn:Ha.
  - (* a token is stored *)
    destruct (accepts (lit "/login") p) eqn:Hl.
    + unfold beforeEach. cbn [requiresAuth path andb]. rewrite Ha, andb_true_r.
      case_bool_decide; [|by eauto].
      rewrite navigate_home by done. eauto.
    + apply accepts_login_exact in Hl.
      destruct (existsb _ dashboard_paths).
      * rewrite beforeEach_open by done. eauto.
      * destruct (catch_all p).
        -- rewrite navigate_home by done. eauto.
        -- rewrite beforeEach_public_away by done. eauto.
  - (* no token *)
    destruct (accepts (lit "/login") p) eqn:Hl.
    + rewrite beforeEach_public_signed_out by done.
      eexists. split; [done|]. simpl. done.
    + destruct (existsb _ dashboard_paths).
      * unfold beforeEach. cbn [requiresAuth path andb]. rewrite Ha. cbn [negb].
        rewrite navigate_login by done. eexists. split; [done|]. simpl. done.
      * destruct (catch_all p).
        -- rewrite navigate_S.
           change (resolve (lit "/")) with (Matched (RouteLocation (lit "/") true)).
           unfold beforeEach. cbn [requiresAuth path andb]. rewrite Ha. cbn [negb].
           rewrite navigate_login by done. eexists. split; [done|]. simpl. done.
        -- rewrite beforeEach_public_signed_out by done.
           eexists. split; [done|]. simpl. done.
Qed.

(** C10: the guard sends a navigation to [/login] whenever the target
    requires authentication and no token is stored, to [/] whenever the
    target is [/login] and a token is stored, and lets every other
    navigation through unchanged; so the guard never lets a protected target
    through without a stored token, and a navigation, redirects followed,
    never ends on a protected view without one. *)
Theorem guard_redirects (to : route_location) (auth : auth_store) (p : str) :
  (requiresAuth to = true → isAuthenticated auth = false →
   beforeEach to auth = NextTo (lit "/login")) ∧
  (path to = lit "/login" → isAuthenticated auth = true →
   beforeEach to auth = NextTo (lit "/")) ∧
  (¬ (requiresAuth to = true ∧ isAuthenticated auth = false) →
   ¬ (path to = lit "/login" ∧ isAuthenticated auth = true) →
   beforeEach to auth = Next) ∧
  (beforeEach to auth = Next → requiresAuth to = true →
   isAuthenticated auth = true) ∧
  (∃ final, navigate 3 auth p = Some final ∧
            (requiresAuth final = true → isAuthenticated auth = true)).
Proof.
  split; [|split; [|split; [|split]]].
  - intros Hr Ha. unfold beforeEach. by rewrite Hr, Ha.
  - intros Hp Ha. unfold beforeEach. rewrite Ha, Hp.
    rewrite andb_false_r. by rewrite bool_decide_eq_true_2.
  - intros H1 H2. unfold beforeEach.
    destruct (requiresAuth to), (isAuthenticated auth); simpl;
      try (exfalso; apply H1; by split).
    + rewrite andb_true_r. case_bool_decide as Hp; [|done].
      exfalso. apply H2. by split.
    + by rewrite andb_true_r; case_bool_decide as Hp; [exfalso; apply H2|].
    + by rewrite andb_false_r.
  - unfold beforeEach. intros Hn Hr. rewrite Hr in Hn.
    by destruct (isAuthenticated auth).
  - apply navigate_settles.
Qed.

Lemma guard_redirects_witness :
  beforeEach (RouteLocation (lit "/settings") true) (AuthStore None None)
    = NextTo (lit "/login") ∧
  beforeEach (RouteLocation (lit "/login") false)
             (AuthStore (Some (lit "tok")) (Some (lit "admin")))
    = NextTo (lit "/") ∧
  beforeEach (RouteLocation (lit "/logs") true)
             (AuthStore (Some (lit "tok")) (Some (lit "admin")))
    = Next.
Proof.
  split; [|split].
  - apply (guard_redirects (RouteLocation (lit "/settings") true)
             (AuthStore None None) []); reflexivity.
  - apply (guard_redirects (RouteLocation (lit "/login") false)
             (AuthStore (Some (lit "tok")) (Some (lit "admin"))) []); reflexivity.
  - apply (guard_redirects (RouteLocation (lit "/logs") true)
             (AuthStore (Some (lit "tok")) (Some (lit "admin"))) []).
    + intros [_ H]. discriminate H.
    + intros [H _]. discriminate H.
Defined.

End RouterFacts.

(** ** The message core *)

Module CoreFacts.
Import JsString Core.

(** *** EventDispatcher *)

Section DispatcherFacts.
Context {kind event outcome : Type} `{EqDecision kind}.
Abbreviation handler := (@handler event outcome).

Lemma elem_of_unsubscribed (known : list kind) (d : @dispatcher kind event outcome) k :
  k ∈ unsubscribed known d ↔ k ∈ known ∧ handlers_of k d = [].
Proof.
  unfold unsubscribed. rewrite list_elem_of_filter.
  split.
  - intros [Hn Hk]. split; [done|]. by apply nil_length_inv.
  - intros [Hk Hn]. split; [|done]. by rewrite Hn.
Qed.

(** The bootstrap sequence leaves exactly the subscriptions it was given,
    in its order: each is one call of [Subscribe]. *)
Lemma subscriptions_wire (wiring : list (kind * handler)) :
  subscriptions (wire wiring) = wiring.
Proof.
  unfold wire.
  assert (∀ d : @dispatcher kind event outcome,
            subscriptions (foldl (λ d s, Subscribe (fst s) (snd s) d) d wiring)
            = subscriptions d ++ wiring) as H.
  { induction wiring as [|[k h] l IH]; intros d; cbn [foldl].
    - by rewrite app_nil_r.
    - rewrite IH. unfold Subscribe. cbn [subscriptions fst snd].
      by rewrite <- app_assoc. }
  by rewrite H.
Qed.

Lemma handlers_of_wire (wiring : list (kind * handler)) k :
  handlers_of k (wire wiring) = snd <$> filter (λ s, fst s = k) wiring.
Proof. unfold handlers_of. by rewrite subscriptions_wire. Qed.

(** A kind has no handler exactly when no subscription names it. *)
Lemma handlers_of_nil (d : @dispatcher kind event outcome) k :
  handlers_of k d = [] ↔ k ∉ (fst <$> subscriptions d).
Proof.
  unfold handlers_of. split.
  - intros Hn%fmap_nil_inv ([k' h] & Hk & Hin)%list_elem_of_fmap.
    cbn [fst] in Hk. subst k'.
    assert ((k, h) ∈ filter (λ s, fst s = k) (subscriptions d)) as H
      by (by apply list_elem_of_filter).
    rewrite Hn in H. by apply not_elem_of_nil in H.
  - intros Hn. destruct (filter _ _) as [|[k' h] l] eqn:E; [done|].
    exfalso. apply Hn.
    assert ((k', h) ∈ filter (λ s, fst s = k) (subscriptions d)) as H
      by (rewrite E; left).
    apply list_elem_of_filter in H as [Hk Hin]. cbn [fst] in Hk. subst k'.
    apply list_elem_of_fmap. by exists (k, h).
Qed.

Lemma unsubscribed_wire (known : list kind) (wiring : list (kind * handler)) :
  unsubscribed known (wire wiring) = filter (λ k, k ∉ (fst <$> wiring)) known.
Proof.
  unfold unsubscribed. apply list_filter_iff. intros k.
  rewrite length_zero_iff_nil, handlers_of_nil. by rewrite subscriptions_wire.
Qed.

(** C6: the dispatcher answers the query for the kinds without subscriber
    from the calls of [Subscribe] made so far: every known kind before the
    first, and each call takes its kind, and no other, off the answer. The
    bootstrap, which wires before any adapter publishes, ends in the fatal
    wiring error, naming the required kinds that no subscription of the
    wiring names, as soon as there is one; it reaches steady state exactly
    when every required kind is named by a subscription, and then an event
    of a required kind reaches the handlers wired to its kind, in the order
    of the wiring, and at least one. *)
Theorem startup_fails_on_missing_subscriber
    (kind_of : event → kind) (required known : list kind)
    (wiring : list (kind * handler)) :
  unsubscribed known (@no_subscriptions kind event outcome) = known ∧
  (∀ k h (d : @dispatcher kind event outcome),
     unsubscribed known (Subscribe k h d)
     = filter (λ k', k' ≠ k) (unsubscribed known d)) ∧
  unsubscribed known (wire wiring) = filter (λ k, k ∉ (fst <$> wiring)) known ∧
  ((∃ k, k ∈ required ∧ k ∉ (fst <$> wiring)) →
   Bootstrap required wiring
   = DispatcherWiringError (filter (λ k, k ∉ (fst <$> wiring)) required) ∧
   filter (λ k, k ∉ (fst <$> wiring)) required ≠ []) ∧
  ((∀ k, k ∈ required → k ∈ (fst <$> wiring)) ↔
   Bootstrap required wiring = Running (wire wiring)) ∧
  (∀ d, Bootstrap required wiring = Running d →
        d = wire wiring ∧
        ∀ e, kind_of e ∈ required →
             Publish kind_of e d
             = (λ s, snd s e) <$> filter (λ s, fst s = kind_of e) wiring ∧
             Publish kind_of e d ≠ []).
Proof.
  assert (∀ l : list kind,
            (∃ k, k ∈ l ∧ k ∉ (fst <$> wiring)) ↔
            filter (λ k, k ∉ (fst <$> wiring)) l ≠ []) as Hmissing.
  { intros l. split.
    - intros (k & Hk & Hn) E.
      assert (k ∈ filter (λ k, k ∉ (fst <$> wiring)) l) as H
        by (by apply list_elem_of_filter).
      rewrite E in H. by apply not_elem_of_nil in H.
    - intros Hne. destruct (filter _ l) as [|k ks] eqn:E; [done|].
      exists k. apply and_comm. apply (list_elem_of_filter (λ k, k ∉ (fst <$> wiring))).
      rewrite E. left. }
  split; [|split; [|split; [|split; [|split]]]].
  - unfold unsubscribed. induction known as [|k l IH]; [done|].
    rewrite filter_cons_True by done. by rewrite IH.
  - intros k h d. unfold unsubscribed. rewrite list_filter_filter.
    apply list_filter_iff. intros k'.
    rewrite !length_zero_iff_nil, !handlers_of_nil.
    unfold Subscribe. cbn [subscriptions]. rewrite fmap_app, not_elem_of_app.
    cbn [fmap list_fmap fst]. rewrite list_elem_of_singleton. tauto.
  - apply unsubscribed_wire.
  - intros Hex. apply Hmissing in Hex. split; [|done].
    unfold Bootstrap. rewrite unsubscribed_wire.
    by destruct (filter _ required).
  - unfold Bootstrap. rewrite unsubscribed_wire. split.
    + intros Hall. destruct (filter _ required) as [|k ks] eqn:E; [done|].
      exfalso. assert (k ∈ filter (λ k, k ∉ (fst <$> wiring)) required) as H
        by (rewrite E; left).
      apply list_elem_of_filter in H as [Hn Hk]. by apply Hn, Hall.
    + intros Hrun k Hk. destruct (decide (k ∈ (fst <$> wiring))) as [|Hn]; [done|].
      exfalso. assert (filter (λ k, k ∉ (fst <$> wiring)) required ≠ []) as Hne
        by (apply Hmissing; by exists k).
      by destruct (filter _ required).
  - intros d. unfold Bootstrap. rewrite unsubscribed_wire.
    destruct (filter _ required) as [|k ks] eqn:E; [|done].
    intros [= <-]. split; [done|]. intros e He.
    unfold Publish. rewrite handlers_of_wire, <- list_fmap_compose.
    split; [done|]. intros Hnil. apply fmap_nil_inv in Hnil.
    assert (kind_of e ∉ (fst <$> wiring)) as Hn.
    { intros ([k h] & Hk & Hin)%list_elem_of_fmap. cbn [fst] in Hk.
      assert ((k, h) ∈ filter (λ s, fst s = kind_of e) wiring) as H
        by (by apply list_elem_of_filter).
      rewrite Hnil in H. by apply not_elem_of_nil in H. }
    assert (kind_of e ∈ filter (λ k, k ∉ (fst <$> wiring)) required) as H
      by (by apply list_elem_of_filter).
    rewrite E in H. by apply not_elem_of_nil in H.
Qed.

End DispatcherFacts.

(** The historical defect: message and lifecycle events are required,
    and the bootstrap wires a handler for the lifecycle events only. Startup
    ends in the wiring error that names the message kind; with the pipeline
    wired as well it reaches steady state. *)
Lemma startup_fails_on_missing_subscriber_witness :
  Bootstrap (event := str * str) (outcome := str)
    [lit "MESSAGE_RECEIVED"; lit "LIFECYCLE"]
    [(lit "LIFECYCLE", λ e, Some (snd e))]
  = DispatcherWiringError [lit "MESSAGE_RECEIVED"] ∧
  Bootstrap (event := str * str) (outcome := str)
    [lit "MESSAGE_RECEIVED"; lit "LIFECYCLE"]
    [(lit "LIFECYCLE", λ e, Some (snd e)); (lit "MESSAGE_RECEIVED", λ e, None)]
  = Running (wire [(lit "LIFECYCLE", λ e, Some (snd e));
                   (lit "MESSAGE_RECEIVED", λ e, None)]).
Proof.
  split.
  - refine (proj1 (proj1 (proj2 (proj2 (proj2
             (startup_fails_on_missing_subscriber (event := str * str) (outcome := str)
                fst [lit "MESSAGE_RECEIVED"; lit "LIFECYCLE"] []
                [(lit "LIFECYCLE", λ e, Some (snd e))])))) _)).
    exists (lit "MESSAGE_RECEIVED"). split; [left|].
    intros H%list_elem_of_singleton. discriminate H.
  - apply (proj1 (proj2 (proj2 (proj2 (proj2
             (startup_fails_on_missing_subscriber (event := str * str) (outcome := str)
                fst [lit "MESSAGE_RECEIVED"; lit "LIFECYCLE"] []
                [(lit "LIFECYCLE", λ e, Some (snd e));
                 (lit "MESSAGE_RECEIVED", λ e, None)])))))).
    intros k. rewrite !elem_of_cons, elem_of_nil.
    intros [->|[->|[]]]; cbn [fmap list_fmap fst]; [right; left|left].
Defined.

(** *** WakingCheckStage *)

Lemma startsWith_app p rest : startsWith (p ++ rest) p = true.
Proof. induction p as [|a p IH]; simpl; [by destruct rest|]. by rewrite N.eqb_refl. Qed.

Lemma first_prefix_found before p after raw :
  (∀ q, q ∈ before → startsWith raw q = false) →
  startsWith raw p = true →
  first_prefix (before ++ p :: after) raw = Some p.
Proof.
  induction before as [|q before IH]; intros Hb Hp; simpl.
  - by rewrite Hp.
  - rewrite (Hb q) by left. apply IH; [|done]. intros q' Hq'. apply Hb. by right.
Qed.

Lemma first_prefix_none prefixes raw :
  (∀ q, q ∈ prefixes → startsWith raw q = false) →
  first_prefix prefixes raw = None.
Proof.
  induction prefixes as [|q prefixes IH]; intros Hb; simpl; [done|].
  rewrite (Hb q) by left. apply IH. intros q' Hq'. apply Hb. by right.
Qed.

(** C1: the waking decision follows the priority order, first match
    winning. A mention of [self_id] wakes with the raw text untouched; else
    the first wake prefix, in configured order, that the text starts with
    wakes with that one prefix removed and the rest trimmed, whatever the
    later prefixes are; else a wake word inside the text wakes with the raw
    text; else a private chat wakes with the raw text trimmed; else the
    message does not wake. *)
Theorem waking_priority (self_id : str) (cfg : WakeConfig) (m : Message) :
  (mentions self_id m = true →
   waking_check self_id cfg m = Wake (raw_text m)) ∧
  (mentions self_id m = false →
   ∀ before p after rest,
     wake_prefixes cfg = before ++ p :: after →
     (∀ q, q ∈ before → startsWith (raw_text m) q = false) →
     raw_text m = p ++ rest →
     waking_check self_id cfg m = Wake (trim rest)) ∧
  (mentions self_id m = false →
   (∀ q, q ∈ wake_prefixes cfg → startsWith (raw_text m) q = false) →
   ((∃ w, w ∈ wake_words cfg ∧ includes (raw_text m) w = true) →
    waking_check self_id cfg m = Wake (raw_text m)) ∧
   ((∀ w, w ∈ wake_words cfg → includes (raw_text m) w = false) →
    (is_private m = true → waking_check self_id cfg m = Wake (trim (raw_text m))) ∧
    (is_private m = false → waking_check self_id cfg m = NoWake))).
Proof.
  unfold waking_check. split; [|split].
  - by intros ->.
  - intros -> before p after rest Hcfg Hb Hraw.
    rewrite Hcfg, (first_prefix_found before p after); [|done|].
    + by rewrite Hraw, drop_app_length.
    + rewrite Hraw. apply startsWith_app.
  - intros -> Hnone. rewrite first_prefix_none by done. unfold has_wake_word. split.
    + intros (w & Hw & Hin). rewrite bool_decide_eq_true_2; [done|]. by exists w.
    + intros Hwords. rewrite bool_decide_eq_false_2.
      * split; by intros ->.
      * intros (w & Hw & Hin). by rewrite (Hwords w Hw) in Hin.
Qed.

(** The first four testable properties of the specification. *)
Example mention_beats_prefix :
  waking_check (lit "bot") {| wake_prefixes := [lit "/"]; wake_words := ∅ |}
    (sample_message false (lit "/help")
       [MentionComponent (lit "bot"); TextComponent (lit "/help")])
  = Wake (lit "/help").
Proof. vm_compute. reflexivity. Qed.

Example prefix_is_stripped :
  waking_check (lit "bot") {| wake_prefixes := [lit "/"]; wake_words := ∅ |}
    (sample_message false (lit "/help world") [TextComponent (lit "/help world")])
  = Wake (lit "help world").
Proof. vm_compute. reflexivity. Qed.

Example wake_word_in_group :
  waking_check (lit "bot")
    {| wake_prefixes := [lit "/"]; wake_words := {[ [26426; 22120; 20154] ]} |}
    (sample_message false [20320; 22909; 26426; 22120; 20154]
       [TextComponent [20320; 22909; 26426; 22120; 20154]])
  = Wake [20320; 22909; 26426; 22120; 20154].
Proof. vm_compute. reflexivity. Qed.

Example no_signal_in_group :
  waking_check (lit "bot")
    {| wake_prefixes := [lit "/"]; wake_words := {[ [26426; 22120; 20154] ]} |}
    (sample_message false (lit "hello") [TextComponent (lit "hello")])
  = NoWake.
Proof. vm_compute. reflexivity. Qed.

Lemma waking_priority_witness :
  waking_check (lit "bot")
    {| wake_prefixes := [lit "/"]; wake_words := ∅ |}
    (sample_message false (lit "/help") [MentionComponent (lit "bot"); TextComponent (lit "/help")])
  = Wake (lit "/help") ∧
  waking_check (lit "bot")
    {| wake_prefixes := [lit "!"; lit "/"; lit "/h"]; wake_words := ∅ |}
    (sample_message false (lit "/help world ") [TextComponent (lit "/help world ")])
  = Wake (lit "help world").
Proof.
  split.
  - apply (proj1 (waking_priority (lit "bot")
             {| wake_prefixes := [lit "/"]; wake_words := ∅ |}
             (sample_message false (lit "/help")
                [MentionComponent (lit "bot"); TextComponent (lit "/help")]))).
    reflexivity.
  - apply (proj1 (proj2 (waking_priority (lit "bot")
             {| wake_prefixes := [lit "!"; lit "/"; lit "/h"]; wake_words := ∅ |}
             (sample_message false (lit "/help world ") [TextComponent (lit "/help world ")])
           ))) with (before := [lit "!"]) (p := lit "/") (after := [lit "/h"])
                  (rest := lit "help world ").
    + reflexivity.
    + reflexivity.
    + intros q ->%list_elem_of_singleton. reflexivity.
    + reflexivity.
Defined.

(** *** AgentOrchestrator: the order of the turns *)











Lemma anchored_single_user text : anchored [text_turn user text].
Proof.
  intros i t Hi Hr. apply list_lookup_singleton_Some in Hi as [_ <-]. done.
Qed.



(** The round trip of the specification's fifth testable property. *)
Example clock_round_trip :
  turns (run five_rounds clock_provider clock_registry 4
           (start [text_turn user (lit "what time is it?")]))
  = [text_turn user (lit "what time is it?");
     assistant_turn [get_time_call];
     tool_turn get_time_call (lit "12:00")] ∧
  orchestrate five_rounds clock_provider clock_registry 4
    [text_turn user (lit "what time is it?")] = Some (Answer (lit "It is 12:00")).
Proof. split; vm_compute; reflexivity. Qed.

(** *** AgentOrchestrator: the loop is bounded *)

Section Loop.
Variables (cfg : OrchestratorConfig) (provider : Provider) (registry : gmap str Tool).
Abbreviation step' := (step cfg provider registry).
Abbreviation run' := (run cfg provider registry).

Lemma step_final r : final r → step' r = r.
Proof. intros [o Ho]. unfold step, outcome_of in *. by destruct (state r) as [|[|]| | |]. Qed.

Lemma run_final n r : final r → run' n r = r.
Proof. intros Hr. induction n as [|n IH]; [done|]. simpl. by rewrite step_final. Qed.

Lemma run_add a b r : run' (a + b) r = run' b (run' a r).
Proof. revert r. induction a as [|a IH]; intros r; [done|]. simpl. apply IH. Qed.

Lemma run_final_le n m r : final (run' n r) → (n ≤ m)%nat → run' m r = run' n r.
Proof.
  intros Hr Hle. replace m with (n + (m - n))%nat by lia.
  rewrite run_add. by apply run_final.
Qed.

Lemma step_calls_mono r : (provider_calls r ≤ provider_calls (step' r))%nat.
Proof.
  unfold step. destruct (state r) as [|[|]| | |]; simpl; try lia.
  - destruct (provider _ _); simpl; [lia|lia|]. destruct (_ <? _)%nat; simpl; lia.
  - destruct (_ <? _)%nat; simpl; lia.
Qed.

Lemma run_calls_mono n r : (provider_calls r ≤ provider_calls (run' n r))%nat.
Proof.
  revert r. induction n as [|n IH]; intros r; [done|]. simpl.
  etrans; [apply step_calls_mono|apply IH].
Qed.

(** The pending calls are executed one by one, the counters untouched. *)
Lemma run_drain pending r :
  state r = AwaitingToolResults pending →
  state (run' (length pending) r) = AwaitingToolResults [] ∧
  round (run' (length pending) r) = round r ∧
  retries (run' (length pending) r) = retries r ∧
  provider_calls (run' (length pending) r) = provider_calls r.
Proof.
  revert r. induction pending as [|c rest IH]; intros r Hs; [done|].
  pose (r1 := {| state := AwaitingToolResults rest;
                 turns := turns r ++ [tool_turn c (execute registry c)];
                 round := round r; retries := retries r;
                 provider_calls := provider_calls r |}).
  assert (step' r = r1) as Hstep by (unfold step; by rewrite Hs).
  simpl. rewrite Hstep. exact (IH r1 eq_refl).
Qed.

(** With a provider that always asks for tools, a run in [Calling] ends
    capped, one provider call per round up to the limit. *)
Lemma run_capped d :
  always_calls_tools provider →
  ∀ r, state r = Calling → (max_tool_rounds cfg - round r = d)%nat →
  ∃ n, state (run' n r) = Capped ∧
       round (run' n r) = (round r + d)%nat ∧
       provider_calls (run' n r) = (provider_calls r + S d)%nat.
Proof.
  intros Hp. induction d as [|d IH]; intros r Hs Hd.
  - destruct (Hp (provider_calls r) (turns r)) as (c & cs & Hc).
    set (r1 := step' r).
    assert (state r1 = AwaitingToolResults (c :: cs) ∧ round r1 = round r ∧
            provider_calls r1 = S (provider_calls r)) as (Hs1 & Hr1 & Hc1).
    { unfold r1, step. rewrite Hs, Hc. done. }
    destruct (run_drain _ _ Hs1) as (Hs2 & Hr2 & _ & Hc2).
    exists (1 + (length (c :: cs) + 1))%nat.
    rewrite run_add. change (run' 1 r) with r1. rewrite run_add.
    set (r2 := run' (length (c :: cs)) r1) in *.
    change (run' 1 r2) with (step' r2). unfold step. rewrite Hs2.
    destruct (Nat.ltb_spec (max_tool_rounds cfg) (S (round r2))) as [_|Hge]; [|lia].
    simpl. repeat split; lia.
  - destruct (Hp (provider_calls r) (turns r)) as (c & cs & Hc).
    set (r1 := step' r).
    assert (state r1 = AwaitingToolResults (c :: cs) ∧ round r1 = round r ∧
            provider_calls r1 = S (provider_calls r)) as (Hs1 & Hr1 & Hc1).
    { unfold r1, step. rewrite Hs, Hc. done. }
    destruct (run_drain _ _ Hs1) as (Hs2 & Hr2 & _ & Hc2).
    set (r2 := run' (length (c :: cs)) r1) in *.
    set (r3 := step' r2).
    assert (state r3 = Calling ∧ round r3 = S (round r) ∧
            provider_calls r3 = S (provider_calls r)) as (Hs3 & Hr3 & Hc3).
    { unfold r3, step. rewrite Hs2.
      destruct (Nat.ltb_spec (max_tool_rounds cfg) (S (round r2))) as [Hlt|_]; [lia|].
      simpl. repeat split; lia. }
    destruct (IH r3 Hs3 ltac:(lia)) as (n & Hsn & Hrn & Hcn).
    exists (1 + (length (c :: cs) + (1 + n)))%nat.
    rewrite run_add. change (run' 1 r) with r1. rewrite run_add. fold r2.
    rewrite run_add. change (run' 1 r2) with r3.
    repeat split; [done|lia|lia].
Qed.




End Loop.

(** C3: with a provider that always returns tool calls and
    [max_tool_rounds = 5], the orchestrator ends in [Capped] after exactly
    five rounds and five provider calls, at no point of the run has the
    provider been called a sixth time, and the result is the bounded
    tool-call-limit notice. *)
Theorem bounded_tool_loop
    (cfg : OrchestratorConfig) (provider : Provider) (registry : gmap str Tool)
    (conversation : list ConversationTurn) :
  max_tool_rounds cfg = 5%nat →
  always_calls_tools provider →
  (∃ n, ∀ m, (n ≤ m)%nat →
     state (run cfg provider registry m (start conversation)) = Capped ∧
     round (run cfg provider registry m (start conversation)) = 5%nat ∧
     provider_calls (run cfg provider registry m (start conversation)) = 5%nat ∧
     reply_text <$> orchestrate cfg provider registry m conversation
       = Some limit_notice) ∧
  (∀ m, (provider_calls (run cfg provider registry m (start conversation)) ≤ 5)%nat).
Proof.
  intros Hmax Hp.
  destruct (run_capped cfg provider registry 4 Hp (start conversation) eq_refl)
    as (n & Hs & Hr & Hc); [simpl; lia|].
  simpl in Hr, Hc.
  assert (final (run cfg provider registry n (start conversation))) as Hfin.
  { unfold final, outcome_of. rewrite Hs. by eexists. }
  split.
  - exists n. intros m Hm. unfold orchestrate.
    rewrite (run_final_le cfg provider registry n m) by done.
    unfold outcome_of. rewrite Hs. done.
  - intros m. destruct (decide (m ≤ n)%nat) as [Hle|Hgt].
    + rewrite <- Hc. replace n with (m + (n - m))%nat by lia.
      rewrite run_add. apply run_calls_mono.
    + rewrite (run_final_le cfg provider registry n m) by (done || lia). lia.
Qed.

Lemma bounded_tool_loop_witness :
  (∃ n, ∀ m, (n ≤ m)%nat →
     state (run five_rounds looping_provider clock_registry m (start [])) = Capped ∧
     round (run five_rounds looping_provider clock_registry m (start [])) = 5%nat ∧
     provider_calls (run five_rounds looping_provider clock_registry m (start [])) = 5%nat ∧
     reply_text <$> orchestrate five_rounds looping_provider clock_registry m []
       = Some limit_notice) ∧
  (∀ m, (provider_calls (run five_rounds looping_provider clock_registry m (start [])) ≤ 5)%nat).
Proof.
  apply (bounded_tool_loop five_rounds looping_provider clock_registry []).
  - reflexivity.
  - intros n ts. exists get_time_call, []. reflexivity.
Defined.

(** The run of the witness, step by step: capped after fifteen transitions,
    five of them provider calls. *)
Example looping_run :
  state (run five_rounds looping_provider clock_registry 15 (start [])) = Capped ∧
  provider_calls (run five_rounds looping_provider clock_registry 15 (start [])) = 5%nat ∧
  state (run five_rounds looping_provider clock_registry 14 (start []))
    = AwaitingToolResults [].
Proof. repeat split; vm_compute; reflexivity. Qed.

(** *** The pipeline always answers *)









(** The specification's seventh testable property, and the dashboard's
    counterpart with the backend out of reach. *)
Example missing_provider_reply :
  process_message (lit "bot") {| wake_prefixes := [lit "/"]; wake_words := ∅ |}
    unconfigured (λ _, clock_provider) clock_registry (λ _, []) ∅ 0
    (sample_message true (lit " hello ") [TextComponent (lit " hello ")])
  = Some (Replied {| reply_content := no_provider_notice; target_chat_id := lit "c1" |}) ∧
  fst (Dashboard.sendChat Dashboard.offline (lit " hi ") [] (lit "t1") (lit "t2") [])
  = [Dashboard.user_entry (lit "hi") (lit "t1");
     Dashboard.ChatEntry (lit "assistant")
       (Some (Dashboard.JStr (Dashboard.error_tag ++ lit "Failed to fetch")))
       (Some (lit "t2"))].
Proof. split; vm_compute; reflexivity. Qed.

End CoreFacts.

(** * Further properties of the dashboard *)

(** ** More on the string primitives *)

Module JsStringMore.
Import JsString JsStringFacts.

Lemma elem_of_trimStart c s : c ∈ trimStart s → c ∈ s.
Proof.
  induction s as [|x s IH]; simpl; [done|].
  destruct (is_white_space x); [|done]. intros H. right. by apply IH.
Qed.

Lemma elem_of_trimEnd c s : c ∈ trimEnd s → c ∈ s.
Proof.
  unfold trimEnd. rewrite elem_of_reverse. intros H%elem_of_trimStart.
  by apply elem_of_reverse.
Qed.

Lemma elem_of_trim c s : c ∈ trim s → c ∈ s.
Proof. unfold trim. by intros H%elem_of_trimEnd%elem_of_trimStart. Qed.

Lemma trimStart_head_black s c :
  head (trimStart s) = Some c → is_white_space c = false.
Proof.
  induction s as [|x s IH]; simpl; [done|].
  destruct (is_white_space x) eqn:E; [done|]. simpl. by intros [= <-].
Qed.

Lemma trimStart_app_black l c k :
  is_white_space c = false → trimStart (l ++ c :: k) = trimStart l ++ c :: k.
Proof.
  intros Hc. induction l as [|x l IH]; simpl; [by rewrite Hc|].
  by destruct (is_white_space x).
Qed.

Lemma trimEnd_cons_black c s :
  is_white_space c = false → trimEnd (c :: s) = c :: trimEnd s.
Proof.
  intros Hc. unfold trimEnd. rewrite reverse_cons.
  rewrite trimStart_app_black by done. rewrite reverse_app. reflexivity.
Qed.

Lemma trimEnd_last_black s c :
  last (trimEnd s) = Some c → is_white_space c = false.
Proof. unfold trimEnd. rewrite last_reverse. apply trimStart_head_black. Qed.

Lemma trim_head_black s c : head (trim s) = Some c → is_white_space c = false.
Proof.
  unfold trim. destruct (trimStart s) as [|x t] eqn:E; [done|].
  assert (is_white_space x = false) as Hx
    by (apply (trimStart_head_black s); by rewrite E).
  rewrite trimEnd_cons_black by done. simpl. by intros [= <-].
Qed.

Lemma trim_last_black s c : last (trim s) = Some c → is_white_space c = false.
Proof. unfold trim. apply trimEnd_last_black. Qed.

(** Trimming twice is trimming once. *)
Lemma trim_idemp s : trim (trim s) = trim s.
Proof.
  unfold trim at 1.
  rewrite trimStart_head by (intros c; apply trim_head_black).
  apply trimEnd_last. intros c. apply trim_last_black.
Qed.

(** No piece of a split holds the separator. *)
Lemma split_pieces c s p : p ∈ split c s → c ∉ p.
Proof.
  revert p. induction s as [|x s IH]; intros p; simpl.
  - intros ->%list_elem_of_singleton. apply not_elem_of_nil.
  - destruct (N.eqb_spec x c) as [->|Hx].
    + intros [->|Hp]%elem_of_cons; [apply not_elem_of_nil|by apply IH].
    + destruct (split c s) as [|h t] eqn:E.
      * intros ->%list_elem_of_singleton. 
        intros [->|H]%elem_of_cons; [done|]. by apply not_elem_of_nil in H.
      * intros [->|Hp]%elem_of_cons.
        -- intros [->|H]%elem_of_cons; [done|]. apply (IH h); [left|done].
        -- apply IH. by right.
Qed.

(** The pieces hold nothing that the string does not. *)
Lemma elem_of_split c s p x : p ∈ split c s → x ∈ p → x ∈ s.
Proof.
  revert p. induction s as [|y s IH]; intros p; simpl.
  - by intros ->%list_elem_of_singleton.
  - destruct (y =? c).
    + intros [->|Hp]%elem_of_cons Hx; [by apply not_elem_of_nil in Hx|].
      right. by apply IH with p.
    + destruct (split c s) as [|h l] eqn:E.
      * intros ->%list_elem_of_singleton ->%list_elem_of_singleton. left.
      * intros [->|Hp]%elem_of_cons Hx.
        -- apply elem_of_cons in Hx as [->|Hx]; [left|right; apply IH with h; [left|done]].
        -- right. apply IH with p; [by right|done].
Qed.

(** A string that holds the separator splits into two pieces at least. *)
Lemma split_includes c s : c ∈ s → (2 ≤ length (split c s))%nat.
Proof.
  induction s as [|x s IH]; [by intros H%not_elem_of_nil|].
  simpl. destruct (N.eqb_spec x c) as [->|Hx].
  - intros _. simpl. destruct s; simpl; [lia|]. destruct (_ =? _); [simpl; lia|].
    destruct (split c s); simpl; lia.
  - intros [->|H]%elem_of_cons; [done|]. specialize (IH H).
    destruct (split c s) as [|h t]; simpl in *; lia.
Qed.

Lemma startsWith_single s c : startsWith s [c] = true → head s = Some c.
Proof.
  destruct s as [|x s]; simpl; [done|]. rewrite andb_true_iff.
  intros [->%N.eqb_eq _]. done.
Qed.

Lemma includes_single s c : includes s [c] = true ↔ c ∈ s.
Proof.
  induction s as [|x s IH].
  - simpl. split; [done|by intros H%not_elem_of_nil].
  - cbn [includes]. rewrite orb_true_iff, IH, elem_of_cons. split.
    + intros [H%startsWith_single|H]; [left|by right]. by injection H.
    + intros [->|H]; [left|by right]. simpl. rewrite N.eqb_refl. by destruct s.
Qed.

End JsStringMore.

(** ** The settings, the platform form and the account tab *)

Module DashboardMore.
Import JsString JsStringFacts JsStringMore Dashboard DashboardFacts.

(** *** The wake-prefix field *)

Lemma plain_prefix_intro s :
  s ≠ [] → comma ∉ s →
  (∀ c, head s = Some c → is_white_space c = false) →
  (∀ c, last s = Some c → is_white_space c = false) →
  plain_prefix s = true.
Proof.
  intros Hne Hc Hh Hl. unfold plain_prefix. rewrite !andb_true_iff. repeat split.
  - by destruct s.
  - apply negb_true_iff, not_true_iff_false.
    intros (x & Hx & E%N.eqb_eq)%existsb_exists.
    apply Hc, list_elem_of_In. by rewrite E.
  - destruct (head s) as [c|] eqn:E; [|done]. by rewrite (Hh c).
  - destruct (last s) as [c|] eqn:E; [|done]. by rewrite (Hl c).
Qed.

Lemma parsed_items_plain field s :
  s ∈ parse_wake_prefixes field → plain_prefix s = true.
Proof.
  unfold parse_wake_prefixes. rewrite list_elem_of_filter.
  intros [Ht Hs]. apply list_elem_of_In, in_map_iff in Hs as (p & <- & Hp).
  apply list_elem_of_In in Hp. apply plain_prefix_intro.
  - intros E. by rewrite E in Ht.
  - intros Hc%elem_of_trim. by apply (split_pieces comma field p).
  - apply trim_head_black.
  - apply trim_last_black.
Qed.

Lemma render_parse_plain (prefixes : list str) :
  forallb plain_prefix prefixes = true →
  parse_wake_prefixes (render_wake_prefixes prefixes) = prefixes.
Proof.
  unfold parse_wake_prefixes, render_wake_prefixes.
  destruct prefixes as [|x l]; [done|].
  cbn [forallb]. intros [Hx Hl]%andb_true_iff.
  rewrite split_render.
  - cbn [map]. rewrite trim_plain by done.
    rewrite filter_cons_True by (by apply plain_truthy).
    by rewrite parse_items.
  - by apply plain_prefix_spec in Hx as (_ & Hc & _).
  - apply Forall_forall. intros s Hs.
    rewrite forallb_forall in Hl.
    by apply list_elem_of_In, Hl, plain_prefix_spec in Hs as (_ & Hc & _).
Qed.

(** X1: whatever text the wake-prefix field holds, the list saved from it
    has only items that are non-empty, comma-free and trimmed, and showing
    that list in the field and saving again gives the same list. *)
Theorem saved_prefixes_are_stable (field : str) :
  forallb plain_prefix (parse_wake_prefixes field) = true ∧
  parse_wake_prefixes (render_wake_prefixes (parse_wake_prefixes field))
  = parse_wake_prefixes field.
Proof.
  assert (forallb plain_prefix (parse_wake_prefixes field) = true) as H.
  { apply forallb_forall. intros s Hs%list_elem_of_In. by eapply parsed_items_plain. }
  split; [done|]. by apply render_parse_plain.
Qed.

(** *** Platform credentials *)

(** *** Form controls *)

Lemma control_value_id ctl s : unbroken ctl s = true → control_value ctl s = s.
Proof.
  unfold unbroken. destruct ctl; cbn [control_value kept].
  - induction s as [|c s IH]; [done|].
    cbn [forallb]. intros [Hc Hs]%andb_true_iff.
    unfold strip_newlines. cbn [List.filter]. cbn [kept] in Hc. rewrite Hc.
    f_equal. by apply IH.
  - induction s as [|c s IH]; [done|].
    cbn [forallb normalize_newlines]. intros [Hc Hs]%andb_true_iff.
    cbn [kept] in Hc. apply negb_true_iff in Hc. rewrite Hc. f_equal. by apply IH.
Qed.

Lemma normalize_newlines_kept n s :
  (length s ≤ n)%nat → forallb (kept TextArea) (normalize_newlines s) = true.
Proof.
  revert s. induction n as [|n IH]; intros s Hn.
  - by destruct s; [|simpl in Hn; lia].
  - destruct s as [|c s]; [done|]. cbn [length] in Hn. cbn [normalize_newlines].
    destruct (c =? 13) eqn:Ec.
    + cbn [forallb kept]. cbn [N.eqb Pos.eqb negb andb].
      destruct s as [|d s]; [done|]. cbn [length] in Hn.
      destruct (d =? 10); apply IH; cbn [length]; lia.
    + cbn [forallb kept]. rewrite Ec. cbn [negb andb]. apply IH. lia.
Qed.

(** What a control gives back holds no line break that it alters. *)
Lemma control_value_unbroken ctl s : unbroken ctl (control_value ctl s) = true.
Proof.
  unfold unbroken. destruct ctl; cbn [control_value].
  - apply forallb_forall. intros c Hc. unfold strip_newlines in Hc.
    by apply filter_In in Hc as [_ Hc].
  - by apply normalize_newlines_kept with (length s).
Qed.

Lemma unbroken_app ctl a b :
  unbroken ctl (a ++ b) = unbroken ctl a && unbroken ctl b.
Proof. unfold unbroken. apply forallb_app. Qed.

Lemma unbroken_elem ctl s c : unbroken ctl s = true → c ∈ s → kept ctl c = true.
Proof.
  unfold unbroken. rewrite forallb_forall. intros H Hc. by apply H, list_elem_of_In.
Qed.

Lemma unbroken_intro ctl s : (∀ c, c ∈ s → kept ctl c = true) → unbroken ctl s = true.
Proof.
  intros H. unfold unbroken. apply forallb_forall. intros c Hc.
  by apply H, list_elem_of_In.
Qed.

Lemma unbroken_render ctl l :
  forallb (unbroken ctl) l = true → unbroken ctl (render_wake_prefixes l) = true.
Proof.
  unfold render_wake_prefixes. induction l as [|x l IH]; [done|].
  cbn [forallb]. intros [Hx Hl]%andb_true_iff. cbn [join].
  destruct l as [|y l]; [done|].
  rewrite !unbroken_app, Hx, (IH Hl). by destruct ctl.
Qed.

(** *** The settings field *)

(** C8 (amended): a list of wake prefixes whose items are non-empty,
    comma-free and without white space at either end comes back unchanged,
    in order, after being rendered into the settings field ([join(", ")]) and
    saved from it ([split(",")], [trim] each, drop the empty ones), if and
    only if no item holds a line break that the field alters: code unit 10 or
    13 in a text input, code unit 13 in a textarea. *)
Theorem wake_prefixes_survive_the_field (ctl : control) (prefixes : list str) :
  forallb plain_prefix prefixes = true →
  (settings_round_trip ctl prefixes = prefixes ↔
   forallb (unbroken ctl) prefixes = true).
Proof.
  intros Hplain. unfold settings_round_trip. split.
  - intros Hround. apply forallb_forall. intros s Hs%list_elem_of_In.
    apply unbroken_intro. intros c Hc.
    rewrite <- Hround in Hs. unfold parse_wake_prefixes in Hs.
    apply list_elem_of_filter in Hs as [_ Hs].
    apply list_elem_of_In, in_map_iff in Hs as (piece & <- & Hpiece%list_elem_of_In).
    apply elem_of_trim in Hc.
    apply (unbroken_elem ctl (control_value ctl (render_wake_prefixes prefixes)));
      [apply control_value_unbroken|].
    by apply elem_of_split with comma piece.
  - intros Hkept. rewrite control_value_id by (by apply unbroken_render).
    by apply render_parse_plain.
Qed.

Lemma wake_prefixes_survive_the_field_witness :
  settings_round_trip TextInput [lit "/"; lit "!bot"; lit "hey aether"]
    = [lit "/"; lit "!bot"; lit "hey aether"] ∧
  settings_round_trip TextArea [lit "/"; lit "!bot"; lit "hey aether"]
    = [lit "/"; lit "!bot"; lit "hey aether"].
Proof.
  split.
  - apply (wake_prefixes_survive_the_field TextInput
             [lit "/"; lit "!bot"; lit "hey aether"]); reflexivity.
  - apply (wake_prefixes_survive_the_field TextArea
             [lit "/"; lit "!bot"; lit "hey aether"]); reflexivity.
Defined.

(** C8 as stated does not hold: it fails on the item [a], code unit 13,
    [b], which is non-empty, comma-free and has no white space at either
    end: a text input gives back [ab] and a textarea [a], code unit 10,
    [b]. *)
Lemma wake_prefixes_counterexample :
  forallb plain_prefix [[97; 13; 98]] = true ∧
  settings_round_trip TextInput [[97; 13; 98]] = [[97; 98]] ∧
  settings_round_trip TextArea [[97; 13; 98]] = [[97; 10; 98]] ∧
  (∀ ctl, settings_round_trip ctl [[97; 13; 98]] ≠ [[97; 13; 98]]).
Proof.
  split; [reflexivity|]. split; [reflexivity|]. split; [reflexivity|].
  intros [] H; discriminate H.
Qed.

(** *** Platform credentials *)

Lemma credential_half_spec s : credential_half s = true → s ≠ [] ∧ colon ∉ s.
Proof.
  unfold credential_half. rewrite andb_true_iff. intros [Ht Hc]. split.
  - by destruct s.
  - intros Hin. apply negb_true_iff, not_true_iff_false in Hc. apply Hc.
    apply existsb_exists. exists colon. split; [by apply list_elem_of_In|apply N.eqb_refl].
Qed.

(** X2: a client id and a secret that are non-empty, colon-free and
    without a line break that the token field alters, shown in that field by
    [openPlatform] and with no white space around the whole, are read back
    from it by [savePlatform] as the same two halves. *)
Theorem credentials_round_trip (ctl : control) (cid csecret token : str) :
  credential_half cid = true →
  credential_half csecret = true →
  unbroken ctl cid = true →
  unbroken ctl csecret = true →
  trim (credential_field cid csecret token) = credential_field cid csecret token →
  parse_credentials (control_value ctl (credential_field cid csecret token))
  = Halves (Some cid) (Some csecret).
Proof.
  intros Hi Hs Hki Hks Htrim.
  assert (credential_field cid csecret token = cid ++ colon :: csecret) as Hfield.
  { pose proof Hi as [Ht1 _]%andb_true_iff. pose proof Hs as [Ht2 _]%andb_true_iff.
    unfold credential_field. by rewrite Ht1, Ht2. }
  rewrite control_value_id.
  2:{ rewrite Hfield. change (colon :: csecret) with ([colon] ++ csecret).
      rewrite !unbroken_app, Hki, Hks. by destruct ctl. }
  unfold parse_credentials. rewrite Htrim, Hfield.
  apply credential_half_spec in Hi as [_ Hci], Hs as [_ Hcs].
  assert (includes (cid ++ colon :: csecret) [colon] = true) as ->.
  { apply includes_single, elem_of_app. right. left. }
  rewrite split_app_sep, (split_no_sep colon csecret) by done. reflexivity.
Qed.

Lemma credentials_round_trip_witness :
  parse_credentials
    (control_value TextInput (credential_field (lit "ding-app") (lit "s3cret") []))
  = Halves (Some (lit "ding-app")) (Some (lit "s3cret")).
Proof. apply credentials_round_trip; reflexivity. Defined.

(** X3: [savePlatform] stores two halves exactly when the trimmed token
    field holds a colon, and then both halves are present and neither holds
    a colon: what follows a second colon is dropped, so a secret with a
    colon in it cannot be saved whole. *)
Theorem saved_halves_have_no_colon (field : str) :
  (colon ∈ trim field ↔ ∃ a b, parse_credentials field = Halves a b) ∧
  (∀ a b, parse_credentials field = Halves a b →
     ∃ x y, a = Some x ∧ b = Some y ∧ (colon ∉ x) ∧ (colon ∉ y) ∧
            take 2 (split colon (trim field)) = [x; y]).
Proof.
  unfold parse_credentials.
  destruct (includes (trim field) [colon]) eqn:E.
  - apply includes_single in E. split; [split; [eauto|done]|].
    intros a b [= <- <-].
    pose proof (split_includes colon (trim field) E) as Hlen.
    destruct (split colon (trim field)) as [|x [|y rest]] eqn:Es; simpl in Hlen; try lia.
    exists x, y. repeat split.
    + apply (split_pieces colon (trim field)). rewrite Es. left.
    + apply (split_pieces colon (trim field)). rewrite Es. right. left.
  - assert (colon ∉ trim field) as Hn.
    { intros H%includes_single. by rewrite H in E. }
    split.
    + split; [done|]. intros (a & b & H). by destruct (truthy (trim field)).
    + intros a b H. by destruct (truthy (trim field)).
Qed.

Lemma saved_halves_have_no_colon_witness :
  parse_credentials (lit " id:se:cret ") = Halves (Some (lit "id")) (Some (lit "se")) ∧
  ∃ x y, Some (lit "id") = Some x ∧ Some (lit "se") = Some y ∧
         (colon ∉ x) ∧ (colon ∉ y) ∧
         take 2 (split colon (trim (lit " id:se:cret "))) = [x; y].
Proof.
  split; [reflexivity|].
  apply (proj2 (saved_halves_have_no_colon (lit " id:se:cret "))). reflexivity.
Defined.

(** *** The account tab *)

(** X4: [changePassword] posts nothing when the two password entries
    differ or when both the password and the trimmed user name are empty;
    whenever it posts, the update is not empty, a posted password is not
    empty and equals both entries, and a posted user name is the trimmed,
    non-empty entry. *)
Theorem posted_password_is_confirmed
    (backend : account_update → fetched) (form : password_form) :
  (posted_update (changePassword backend form) = None ↔
     (new_password form ≠ [] ∧ new_password form ≠ new_password2 form) ∨
     (new_password form = [] ∧ trim (new_username form) = [])) ∧
  (∀ u, posted_update (changePassword backend form) = Some u →
     (admin_username u ≠ None ∨ admin_password u ≠ None) ∧
     (∀ pw, admin_password u = Some pw →
        pw ≠ [] ∧ pw = new_password form ∧ pw = new_password2 form) ∧
     (∀ n, admin_username u = Some n → n ≠ [] ∧ n = trim (new_username form))).
Proof.
  unfold changePassword.
  destruct (new_password form) as [|c pw] eqn:Epw; cbn [truthy andb negb].
  - destruct (trim (new_username form)) as [|c n] eqn:En; cbn [truthy negb].
    + split; [split; [by right|done]|]. intros u H. discriminate H.
    + split.
      * destruct (api _); cbn [posted_update]; (split; [done|]);
          intros [[H _]|[_ H]]; done.
      * intros u Hu.
        assert (u = AccountUpdate (Some (c :: n)) None) as ->
          by (destruct (api _); cbn [posted_update] in Hu; by injection Hu).
        cbn [admin_username admin_password]. split; [by left|]. split.
        -- intros pw H. discriminate H.
        -- intros n0 [= <-]. done.
  - case_bool_decide as Heq; cbn [negb].
    + split.
      * destruct (api _); cbn [posted_update]; (split; [done|]);
          intros [[_ H]|[H _]]; done.
      * intros u Hu.
        assert (u = AccountUpdate
                      (if truthy (trim (new_username form))
                       then Some (trim (new_username form)) else None)
                      (Some (c :: pw))) as ->
          by (destruct (api _); cbn [posted_update] in Hu; by injection Hu).
        cbn [admin_username admin_password]. split; [by right|]. split.
        -- intros pw' [= <-]. done.
        -- intros n0 H. destruct (trim (new_username form)) as [|x n]; [done|].
           cbn [truthy] in H. by injection H as <-.
    + split; [split; [by left|done]|]. intros u H. discriminate H.
Qed.

Lemma posted_password_is_confirmed_witness :
  (admin_username (AccountUpdate None (Some (lit "hunter2"))) ≠ None ∨
   admin_password (AccountUpdate None (Some (lit "hunter2"))) ≠ None) ∧
  (∀ pw, admin_password (AccountUpdate None (Some (lit "hunter2"))) = Some pw →
     pw ≠ [] ∧ pw = lit "hunter2" ∧ pw = lit "hunter2") ∧
  (∀ n, admin_username (AccountUpdate None (Some (lit "hunter2"))) = Some n →
     n ≠ [] ∧ n = trim (lit "  ")).
Proof.
  apply (proj2 (posted_password_is_confirmed
                  (λ _, Responded (Response 200 (Some (JObj []))))
                  (PasswordForm (lit "hunter2") (lit "hunter2") (lit "  ")))).
  reflexivity.
Defined.

(** *** Escaping *)

Lemma escape_unit_no_markup c : (60 ∉ escape_unit c) ∧ (62 ∉ escape_unit c).
Proof.
  unfold escape_unit.
  destruct (N.eqb_spec c 38); [|destruct (N.eqb_spec c 160);
    [|destruct (N.eqb_spec c 60); [|destruct (N.eqb_spec c 62)]]];
  split; intros H; cbn in H;
  repeat (apply elem_of_cons in H as [H|H]; [by (discriminate H || congruence)|]);
  by apply not_elem_of_nil in H.
Qed.

Lemma serialize_text_no_markup s : (60 ∉ serialize_text s) ∧ (62 ∉ serialize_text s).
Proof.
  induction s as [|c s [IH1 IH2]]; simpl.
  - split; apply not_elem_of_nil.
  - destruct (escape_unit_no_markup c).
    split; intros [?|?]%elem_of_app; done.
Qed.

(** X5: what [_escHtml] returns never holds [<] or [>], whatever value it
    is given; and a text without [&], [<], [>] and the no-break space comes
    back unchanged. *)
Theorem escaped_text_has_no_markup (v : option json) (s : str) :
  (60 ∉ _escHtml v) ∧ (62 ∉ _escHtml v) ∧
  (Forall (λ c, c ≠ 38 ∧ c ≠ 160 ∧ c ≠ 60 ∧ c ≠ 62) s →
   _escHtml (Some (JStr s)) = s).
Proof.
  split; [|split].
  - unfold _escHtml. destruct v as [v|]; [|apply not_elem_of_nil].
    destruct (truthy_value _); [apply serialize_text_no_markup|apply not_elem_of_nil].
  - unfold _escHtml. destruct v as [v|]; [|apply not_elem_of_nil].
    destruct (truthy_value _); [apply serialize_text_no_markup|apply not_elem_of_nil].
  - intros Hs. unfold _escHtml. cbn [truthy_value to_str].
    destruct s as [|c s]; [done|]. cbn [truthy].
    induction Hs as [|x l (H1 & H2 & H3 & H4) _ IH]; [done|].
    cbn [serialize_text]. rewrite IH. unfold escape_unit.
    destruct (N.eqb_spec x 38); [done|]. destruct (N.eqb_spec x 160); [done|].
    destruct (N.eqb_spec x 60); [done|]. destruct (N.eqb_spec x 62); [done|]. done.
Qed.

Lemma escaped_text_has_no_markup_witness :
  _escHtml (Some (JStr (lit "plain 'text'"))) = lit "plain 'text'".
Proof.
  apply (escaped_text_has_no_markup None (lit "plain 'text'")).
  repeat (apply Forall_cons; split; [repeat split; discriminate|]).
  apply Forall_nil_2.
Defined.

Lemma escape_unit_quotes c :
  List.filter is_quote (escape_unit c) = List.filter is_quote [c].
Proof.
  unfold escape_unit.
  destruct (N.eqb_spec c 38) as [->|]; [done|].
  destruct (N.eqb_spec c 160) as [->|]; [done|].
  destruct (N.eqb_spec c 60) as [->|]; [done|].
  destruct (N.eqb_spec c 62) as [->|]; done.
Qed.

Lemma serialize_text_quotes s :
  List.filter is_quote (serialize_text s) = List.filter is_quote s.
Proof.
  induction s as [|c s IH]; [done|].
  cbn [serialize_text]. rewrite List.filter_app, escape_unit_quotes, IH.
  by rewrite <- List.filter_app.
Qed.

(** X6: [_escHtml] leaves quotes alone: the double quotes and apostrophes
    of a string come out as they went in, in the same order and number, so
    an escaped text can still close a quoted attribute or script string. *)
Theorem escaped_text_keeps_quotes (s : str) :
  List.filter is_quote (_escHtml (Some (JStr s))) = List.filter is_quote s.
Proof.
  unfold _escHtml. cbn [truthy_value to_str].
  destruct s as [|c s]; [done|]. cbn [truthy].
  apply serialize_text_quotes.
Qed.

(** *** Personas *)

Lemma savePersona_tidy editing n d p cfg :
  Forall (λ q, tidy_persona q = true) (personas cfg) →
  Forall (λ q, tidy_persona q = true) (personas (savePersona editing n d p cfg)).
Proof.
  intros Hcfg. unfold savePersona.
  destruct (truthy (trim n)) eqn:Hn; [|done].
  destruct (truthy (trim p)) eqn:Hp; [|done]. cbn [negb].
  assert (tidy_persona (Persona (trim n) (trim d) (trim p)) = true) as Hentry.
  { unfold tidy_persona. cbn [name prompt]. rewrite Hn, Hp, trim_idemp.
    by rewrite bool_decide_eq_true_2. }
  destruct editing as [idx|]; [destruct (idx <? _)%nat|]; cbn [personas put_personas].
  - by apply Forall_insert.
  - apply Forall_app. split; [done|]. by apply Forall_singleton.
  - apply Forall_app. split; [done|]. by apply Forall_singleton.
Qed.

Lemma apply_op_tidy cfg op :
  Forall (λ q, tidy_persona q = true) (personas cfg) →
  Forall (λ q, tidy_persona q = true) (personas (apply_op cfg op)).
Proof.
  intros Hcfg. destruct op as [n d p|i n d p|i|n]; cbn [apply_op].
  - by apply savePersona_tidy.
  - by apply savePersona_tidy.
  - unfold deletePersona. destruct (_ <? _)%nat; [|done].
    cbn [personas put_personas]. by apply Forall_delete.
  - done.
Qed.

(** X7: the persona page never stores a blank persona: if every stored
    persona has a non-empty prompt and a non-empty name without white space
    around it, the same holds after any sequence of create, edit, delete
    and set-default operations. *)
Theorem stored_personas_stay_tidy (cfg : config) (ops : list persona_op) :
  Forall (λ q, tidy_persona q = true) (personas cfg) →
  Forall (λ q, tidy_persona q = true) (personas (run_ops ops cfg)).
Proof.
  revert cfg. induction ops as [|op ops IH]; intros cfg Hcfg; [done|].
  unfold run_ops. cbn [foldl]. apply IH. by apply apply_op_tidy.
Qed.

Lemma stored_personas_stay_tidy_witness :
  Forall (λ q, tidy_persona q = true)
    (personas (run_ops [Create (lit "  ") [] (lit "prompt");
                        Create (lit " Aria ") [] (lit " You are Aria. ");
                        Edit 0 (lit "Bo") [] (lit "   ")] no_personas)).
Proof. apply stored_personas_stay_tidy. apply Forall_nil_2. Defined.

(** X8: creating a persona and then deleting the last entry gives back the
    stored configuration as it was, default included: a creation that goes
    through appends exactly one entry and touches nothing else. *)
Theorem create_then_delete (n d p : str) (cfg : config) :
  truthy (trim n) = true → truthy (trim p) = true →
  personas (savePersona None n d p cfg)
    = personas cfg ++ [Persona (trim n) (trim d) (trim p)] ∧
  deletePersona (length (personas cfg)) (savePersona None n d p cfg) = cfg.
Proof.
  intros Hn Hp. unfold savePersona. rewrite Hn, Hp. cbn [negb].
  split; [done|]. unfold deletePersona, put_personas. cbn [personas default_persona].
  rewrite length_app. cbn [length].
  destruct (Nat.ltb_spec (length (personas cfg)) (length (personas cfg) + 1)); [|lia].
  rewrite delete_middle, app_nil_r. by destruct cfg.
Qed.

Lemma create_then_delete_witness :
  personas (savePersona None (lit " Aria ") [] (lit "You are Aria.") no_personas)
    = personas no_personas ++ [Persona (trim (lit " Aria ")) (trim []) (trim (lit "You are Aria."))] ∧
  deletePersona (length (personas no_personas))
    (savePersona None (lit " Aria ") [] (lit "You are Aria.") no_personas) = no_personas.
Proof. apply create_then_delete; reflexivity. Defined.

Lemma NoDup_lookup_delete (l : list str) (i : nat) (x : str) :
  NoDup l → l !! i = Some x → x ∉ delete i l.
Proof.
  intros Hl Hi. rewrite delete_take_drop.
  rewrite <- (take_drop_middle l i x Hi) in Hl.
  apply NoDup_app in Hl as (_ & Ht & Hd%NoDup_cons).
  intros [H|H]%elem_of_app.
  - apply (Ht x H). left.
  - by destruct Hd.
Qed.

(** X9: deleting the persona in use leaves no persona in use: when names
    are unique and the persona at an index is the default, after
    [deletePersona] of that index the stored default still names it and the
    page shows no persona as the default. *)
Theorem deleting_the_default_leaves_none (cfg : config) (i : nat) (p : persona) :
  NoDup (names cfg) →
  personas cfg !! i = Some p →
  isActive cfg p = true →
  default_persona (deletePersona i cfg) = name p ∧
  default_count (deletePersona i cfg) = 0%nat.
Proof.
  intros Hn Hi Ha. apply bool_decide_eq_true in Ha.
  unfold deletePersona.
  destruct (Nat.ltb_spec i (length (personas cfg))) as [_|Hge];
    [|apply lookup_lt_Some in Hi; lia].
  split; [done|]. unfold default_count, isActive. cbn [personas default_persona put_personas].
  rewrite filter_none; [done|]. intros q Hq Hact. apply bool_decide_eq_true in Hact.
  apply (NoDup_lookup_delete (names cfg) i (name p)); [done| |].
  - unfold names. by rewrite list_lookup_fmap, Hi.
  - unfold names. rewrite <- list_fmap_delete, Ha, <- Hact. by apply list_elem_of_fmap_2.
Qed.

Lemma deleting_the_default_leaves_none_witness :
  default_persona (deletePersona 0 (Config [Persona (lit "Aria") [] (lit "You are Aria.")] (lit "Aria")))
    = lit "Aria" ∧
  default_count (deletePersona 0 (Config [Persona (lit "Aria") [] (lit "You are Aria.")] (lit "Aria")))
    = 0%nat.
Proof.
  apply (deleting_the_default_leaves_none
           (Config [Persona (lit "Aria") [] (lit "You are Aria.")] (lit "Aria")) 0
           (Persona (lit "Aria") [] (lit "You are Aria."))).
  - apply NoDup_singleton.
  - reflexivity.
  - reflexivity.
Defined.

Lemma one_active (l : list persona) (p : persona) :
  NoDup (name <$> l) → p ∈ l →
  length (filter (λ q, bool_decide (name q = name p) = true) l) = 1%nat.
Proof.
  induction l as [|q l IH]; intros Hn Hp; [by apply not_elem_of_nil in Hp|].
  rewrite fmap_cons in Hn. apply NoDup_cons in Hn as [Hq Hl].
  destruct (decide (name q = name p)) as [E|E].
  - rewrite filter_cons_True by (by rewrite bool_decide_eq_true).
    rewrite filter_none; [done|]. intros r Hr Hact.
    apply bool_decide_eq_true in Hact. apply Hq.
    rewrite E, <- Hact. by apply list_elem_of_fmap_2.
  - rewrite filter_cons_False by (by rewrite bool_decide_eq_true).
    apply IH; [done|]. apply elem_of_cons in Hp as [->|Hp]; done.
Qed.

(** X18: choosing a stored persona as the default makes it, and only it,
    the one in use: when names are unique, after [setDefaultPersona] with
    the name of a stored persona the page shows exactly one persona as the
    default, and a persona is shown so exactly when it bears that name; the
    personas themselves are untouched. *)
Theorem set_default_selects_one (cfg : config) (p : persona) :
  NoDup (names cfg) → p ∈ personas cfg →
  default_count (setDefaultPersona (name p) cfg) = 1%nat ∧
  (∀ q, isActive (setDefaultPersona (name p) cfg) q = true ↔ name q = name p) ∧
  personas (setDefaultPersona (name p) cfg) = personas cfg.
Proof.
  intros Hn Hp. split; [|split; [|done]].
  - unfold default_count, isActive, setDefaultPersona, put_default_persona.
    cbn [personas default_persona]. by apply one_active.
  - intros q. unfold isActive, setDefaultPersona, put_default_persona.
    cbn [default_persona]. apply bool_decide_eq_true.
Qed.

Lemma set_default_selects_one_witness :
  default_count (setDefaultPersona (lit "Bo")
     (Config [Persona (lit "Aria") [] (lit "a"); Persona (lit "Bo") [] (lit "b")] [])) = 1%nat ∧
  (∀ q, isActive (setDefaultPersona (lit "Bo")
          (Config [Persona (lit "Aria") [] (lit "a"); Persona (lit "Bo") [] (lit "b")] [])) q
        = true ↔ name q = lit "Bo") ∧
  personas (setDefaultPersona (lit "Bo")
     (Config [Persona (lit "Aria") [] (lit "a"); Persona (lit "Bo") [] (lit "b")] []))
  = [Persona (lit "Aria") [] (lit "a"); Persona (lit "Bo") [] (lit "b")].
Proof.
  apply (set_default_selects_one
           (Config [Persona (lit "Aria") [] (lit "a"); Persona (lit "Bo") [] (lit "b")] [])
           (Persona (lit "Bo") [] (lit "b"))).
  - apply NoDup_cons. split; [|apply NoDup_singleton].
    intros H%list_elem_of_singleton. discriminate H.
  - right. left.
Defined.

(** *** Chat *)

(** X10: whatever the chat history holds, the history posted with a
    message has no system turn, has at most twenty entries, and keeps the
    order of the chat history. *)
Theorem posted_history_has_no_system_turn
    (history : list chat_entry) (msg providerId : str) :
  Forall (λ t, turn_role t ≠ lit "system")
    (body_history (chat_request history msg providerId)) ∧
  (length (body_history (chat_request history msg providerId)) ≤ 20)%nat ∧
  body_history (chat_request history msg providerId) `sublist_of` (to_turn <$> history).
Proof.
  unfold chat_request. cbn [body_history]. split; [|split].
  - apply Forall_fmap. unfold slice_last. apply Forall_drop.
    apply Forall_forall. intros m Hm. by apply list_elem_of_filter in Hm as [Hm _].
  - rewrite length_fmap. apply slice_last_length.
  - apply fmap_sublist. unfold slice_last.
    etrans; [apply sublist_drop|apply sublist_filter].
Qed.

End DashboardMore.

(** ** The auth store, the router and the log view *)

Module AuthStoreFacts.
Import JsString Router RouterFacts AuthStore.

Lemma accepts_spec record p :
  accepts record p = true ↔
  upper <$> p = upper <$> record ∨ upper <$> p = upper <$> (record ++ lit "/").
Proof.
  unfold accepts, same_letters. rewrite orb_true_iff, !bool_decide_eq_true. done.
Qed.

Lemma accepts_refl record p : p = record → accepts record p = true.
Proof. intros ->. apply accepts_spec. by left. Qed.

(** No path is accepted both by the login record and by a record of the
    dashboard. *)
Lemma dashboard_not_login p :
  existsb (λ record, accepts record p) dashboard_paths = true →
  accepts (lit "/login") p = false.
Proof.
  intros H. apply existsb_exists in H as (record & Hin & Hacc).
  apply accepts_spec in Hacc. unfold accepts, same_letters.
  apply list_elem_of_In in Hin. unfold dashboard_paths in Hin.
  rewrite !elem_of_cons, elem_of_nil in Hin.
  destruct Hin as [->|[->|[->|[->|[->|[->|[->|[]]]]]]]];
    destruct Hacc as [->| ->]; reflexivity.
Qed.

Lemma dashboard_accepts p :
  p ∈ dashboard_paths → existsb (λ record, accepts record p) dashboard_paths = true.
Proof.
  intros Hp. apply existsb_exists. exists p. split; [by apply list_elem_of_In|].
  by apply accepts_refl.
Qed.

Lemma navigate_dashboard_record auth p :
  isAuthenticated auth = true →
  existsb (λ record, accepts record p) dashboard_paths = true →
  navigate 3 auth p = Some (RouteLocation p true).
Proof.
  intros Ha Hp. rewrite navigate_S. unfold resolve.
  pose proof (dashboard_not_login p Hp) as Hl. rewrite Hl, Hp.
  apply accepts_login_exact in Hl. by rewrite beforeEach_open.
Qed.

Lemma navigate_dashboard auth p :
  isAuthenticated auth = true → p ∈ dashboard_paths →
  navigate 3 auth p = Some (RouteLocation p true).
Proof.
  intros Ha Hp. apply navigate_dashboard_record; [done|]. by apply dashboard_accepts.
Qed.





Lemma navigate_dashboard_signed_out auth p :
  isAuthenticated auth = false →
  existsb (λ record, accepts record p) dashboard_paths = true →
  navigate 3 auth p = Some (RouteLocation (lit "/login") false).
Proof.
  intros Ha Hp. rewrite navigate_S. unfold resolve.
  rewrite (dashboard_not_login p Hp), Hp.
  unfold beforeEach. cbn [requiresAuth path andb]. rewrite Ha. cbn [negb].
  by apply navigate_login.
Qed.




(** X12: a login whose response carries a non-empty token returns [true]
    and leaves the store authenticated, the token in [localStorage] and on
    every later request as a bearer header; so the dashboard paths open.
    Any other outcome returns [false] and leaves the refs of the store as
    they were. *)
Theorem login_signs_in (response : settled login_data) (s : session) (p : str) :
  (∀ d t, response = Resolved d → data_token d = Some t → truthy t = true →
     snd (login response s) = true ∧
     isAuthenticated (auth (fst (login response s))) = true ∧
     localStorage (fst (login response s)) !! lit "token" = Some t ∧
     request_authorization (fst (login response s)) = Some (bearer t) ∧
     (p ∈ dashboard_paths →
      navigate 3 (auth (fst (login response s))) p = Some (RouteLocation p true))) ∧
  (snd (login response s) = false → auth (fst (login response s)) = auth s).
Proof.
  split.
  - intros d t -> Ht Htruthy. unfold login. rewrite Ht, Htruthy.
    cbn [fst snd auth localStorage on_response].
    assert (isAuthenticated (AuthStore (Some t) (data_username d)) = true) as Ha
      by (unfold isAuthenticated; done).
    split; [done|]. split; [done|]. split; [|split].
    + rewrite lookup_insert_ne by discriminate. by rewrite lookup_insert_eq.
    + unfold request_authorization. cbn [localStorage].
      rewrite lookup_insert_ne by discriminate. by rewrite lookup_insert_eq, Htruthy.
    + intros Hp. by apply navigate_dashboard.
  - unfold login. destruct response as [d|[st|]]; cbn [on_response].
    + destruct (data_token d) as [t|]; [destruct (truthy t)|]; cbn [fst snd]; done.
    + by destruct (st =? 401).
    + done.
Qed.

Lemma login_signs_in_witness :
  snd (login (Resolved (LoginData (Some (lit "tok")) None)) (useAuthStore ∅)) = true ∧
  isAuthenticated (auth (fst (login (Resolved (LoginData (Some (lit "tok")) None))
                                (useAuthStore ∅)))) = true ∧
  localStorage (fst (login (Resolved (LoginData (Some (lit "tok")) None))
                       (useAuthStore ∅))) !! lit "token" = Some (lit "tok") ∧
  request_authorization (fst (login (Resolved (LoginData (Some (lit "tok")) None))
                                (useAuthStore ∅))) = Some (bearer (lit "tok")) ∧
  (lit "/tools" ∈ dashboard_paths →
   navigate 3 (auth (fst (login (Resolved (LoginData (Some (lit "tok")) None))
                            (useAuthStore ∅)))) (lit "/tools")
   = Some (RouteLocation (lit "/tools") true)).
Proof.
  apply (proj1 (login_signs_in (Resolved (LoginData (Some (lit "tok")) None))
                  (useAuthStore ∅) (lit "/tools"))
           (LoginData (Some (lit "tok")) None) (lit "tok")); reflexivity.
Defined.

(** X13: after [logout] nothing of the session is left: the store is not
    authenticated, [localStorage] holds neither token nor user name, no
    request carries an [Authorization] header, no navigation ends on a
    location that requires authentication, and a navigation to a path that a
    record of the dashboard accepts lands on [/login]. *)
Theorem logout_signs_out (s : session) (p : str) :
  isAuthenticated (auth (logout s)) = false ∧
  localStorage (logout s) !! lit "token" = None ∧
  localStorage (logout s) !! lit "username" = None ∧
  request_authorization (logout s) = None ∧
  (∃ final, navigate 3 (auth (logout s)) p = Some final ∧
            requiresAuth final = false) ∧
  (existsb (λ record, accepts record p) dashboard_paths = true →
   navigate 3 (auth (logout s)) p = Some (RouteLocation (lit "/login") false)).
Proof.
  assert (localStorage (logout s) !! lit "token" = None) as Ht.
  { unfold logout. cbn [localStorage].
    rewrite lookup_delete_ne by discriminate. apply lookup_delete_eq. }
  split; [done|]. split; [done|]. split; [|split; [|split]].
  - unfold logout. cbn [localStorage]. apply lookup_delete_eq.
  - unfold request_authorization. by rewrite Ht.
  - destruct (navigate_settles (auth (logout s)) p) as (final & Hf & Hr).
    exists final. split; [done|].
    destruct (requiresAuth final); [|done]. by specialize (Hr eq_refl).
  - by apply navigate_dashboard_signed_out.
Qed.

(** X14: [checkAuth] answers [true] exactly when a non-empty token is
    stored and the verify request succeeds; without a token it changes
    nothing, and when the request fails it ends logged out, the token gone
    from the store and from [localStorage]. *)
Theorem checkAuth_verifies (response : settled unit) (s : session) :
  (snd (checkAuth response s) = true ↔
     isAuthenticated (auth s) = true ∧ ∃ u, response = Resolved u) ∧
  (isAuthenticated (auth s) = false → fst (checkAuth response s) = s) ∧
  (isAuthenticated (auth s) = true → (∃ st, response = Rejected st) →
     isAuthenticated (auth (fst (checkAuth response s))) = false ∧
     localStorage (fst (checkAuth response s)) !! lit "token" = None ∧
     request_authorization (fst (checkAuth response s)) = None).
Proof.
  unfold checkAuth, isAuthenticated.
  destruct (token (auth s)) as [t|] eqn:Et; [destruct (truthy t) eqn:Htr|].
  - split; [|split].
    + destruct response as [u|st]; cbn [snd]; split; try done.
      * intros _. split; [done|by exists u].
      * by intros [_ [u Hu]].
    + done.
    + intros _ [st ->]. cbn [fst].
      destruct (logout_signs_out
                  (on_response (A := unit) (Rejected st)
                     (Session (auth s) (localStorage s) (Some (bearer t)) (location_href s)))
                  []) as (H1 & H2 & _ & H3 & _).
      done.
  - split; [|split]; [|done|done]. cbn [snd]. split; [done|]. by intros [H _].
  - split; [|split]; [|done|done]. cbn [snd]. split; [done|]. by intros [H _].
Qed.

Lemma checkAuth_verifies_witness :
  isAuthenticated (auth (fst (checkAuth (Rejected (Some 401))
     (useAuthStore {[ lit "token" := lit "stale" ]})))) = false ∧
  localStorage (fst (checkAuth (Rejected (Some 401))
     (useAuthStore {[ lit "token" := lit "stale" ]}))) !! lit "token" = None ∧
  request_authorization (fst (checkAuth (Rejected (Some 401))
     (useAuthStore {[ lit "token" := lit "stale" ]}))) = None.
Proof.
  apply (proj2 (proj2 (checkAuth_verifies (Rejected (Some 401))
                         (useAuthStore {[ lit "token" := lit "stale" ]})))).
  - vm_compute. reflexivity.
  - by exists (Some 401).
Defined.

Lemma logout_in_step s : in_step (logout s).
Proof.
  intros _. unfold logout. cbn [auth token localStorage].
  rewrite lookup_delete_ne by discriminate. by rewrite lookup_delete_eq.
Qed.

Lemma on_response_in_step {A : Type} (r : settled A) s :
  in_step s → in_step (on_response r s).
Proof.
  intros Hs. destruct r as [d|[st|]]; cbn [on_response]; try done.
  destruct (st =? 401); [|done]. intros H. discriminate H.
Qed.

Lemma call_in_step s c : in_step s → in_step (call s c).
Proof.
  intros Hs. destruct c as [r| |r]; cbn [call].
  - unfold login. pose proof (on_response_in_step r s Hs) as H1.
    destruct r as [d|st]; [|done].
    destruct (data_token d) as [t|]; [destruct (truthy t)|]; cbn [fst]; try done.
    intros _. cbn [auth token localStorage].
    rewrite lookup_insert_ne by discriminate. by rewrite lookup_insert_eq.
  - apply logout_in_step.
  - unfold checkAuth.
    destruct (token (auth s)) as [t|] eqn:Et; [destruct (truthy t)|]; try done.
    destruct r as [u|st]; cbn [fst].
    + cbn [on_response]. intros H. by apply Hs.
    + apply logout_in_step.
Qed.

(** X15: the store and [localStorage] keep the same token: from the store
    as created, after any sequence of [login], [logout] and [checkAuth]
    calls, however their requests settle, the token of the store is the one
    in [localStorage], unless a 401 has sent the window to [/login]. *)
Theorem store_token_matches_storage (storage : gmap str str) (cs : list store_call) :
  location_href (calls cs (useAuthStore storage)) = None →
  token (auth (calls cs (useAuthStore storage)))
  = localStorage (calls cs (useAuthStore storage)) !! lit "token".
Proof.
  change (in_step (calls cs (useAuthStore storage))).
  assert (in_step (useAuthStore storage)) as H0 by (by intros _).
  revert H0. generalize (useAuthStore storage).
  induction cs as [|c cs IH]; intros s Hs; [done|].
  unfold calls. cbn [foldl]. apply IH. by apply call_in_step.
Qed.

Lemma store_token_matches_storage_witness :
  token (auth (calls [Login (Resolved (LoginData (Some (lit "tok")) (Some (lit "ada"))));
                      CheckAuth (Rejected None);
                      Login (Resolved (LoginData (Some (lit "new")) None))]
                 (useAuthStore {[ lit "token" := lit "old" ]})))
  = localStorage (calls [Login (Resolved (LoginData (Some (lit "tok")) (Some (lit "ada"))));
                         CheckAuth (Rejected None);
                         Login (Resolved (LoginData (Some (lit "new")) None))]
                    (useAuthStore {[ lit "token" := lit "old" ]})) !! lit "token".
Proof. apply store_token_matches_storage. vm_compute. reflexivity. Defined.

End AuthStoreFacts.

Module LogsViewFacts.
Import JsString LogsView.

(** X16: the logs shown are a selection of the logs fetched, in their
    order and never more than two hundred; with a level chosen every log
    shown has that level, with a query typed every log shown holds the
    lower-cased query in its lower-cased message or logger; and with level
    [all] and no query they are the first two hundred logs. *)
Theorem filtered_logs_are_selected
    (toLowerCase : str → str) (logs : list LogEntry) (levelFilter query_text : str) :
  filteredLogs toLowerCase logs levelFilter query_text `sublist_of` logs ∧
  (length (filteredLogs toLowerCase logs levelFilter query_text) ≤ 200)%nat ∧
  (levelFilter ≠ lit "all" →
   Forall (λ log, level log = levelFilter)
     (filteredLogs toLowerCase logs levelFilter query_text)) ∧
  (query_text ≠ [] →
   Forall (λ log, matches_query toLowerCase (toLowerCase query_text) log = true)
     (filteredLogs toLowerCase logs levelFilter query_text)) ∧
  (levelFilter = lit "all" → query_text = [] →
   filteredLogs toLowerCase logs levelFilter query_text = take 200 logs).
Proof.
  unfold filteredLogs. repeat split.
  - etrans; [apply sublist_take|].
    destruct (truthy query_text); [etrans; [apply sublist_filter|]|];
      case_bool_decide; try done; apply sublist_filter.
  - rewrite length_take. lia.
  - intros Hl. rewrite bool_decide_eq_true_2 by done. apply Forall_take.
    destruct (truthy query_text).
    + apply Forall_forall. intros log Hlog.
      apply list_elem_of_filter in Hlog as [_ Hlog].
      by apply list_elem_of_filter in Hlog as [Hlog _].
    + apply Forall_forall. intros log Hlog.
      by apply list_elem_of_filter in Hlog as [Hlog _].
  - intros Hq. destruct query_text as [|c q]; [done|]. cbn [truthy].
    apply Forall_take, Forall_forall. intros log Hlog.
    by apply list_elem_of_filter in Hlog as [Hlog _].
  - intros -> ->. cbn [truthy]. by rewrite bool_decide_eq_false_2 by (by intros H).
Qed.

Lemma filtered_logs_are_selected_witness :
  filteredLogs (λ s, s)
    [Build_LogEntry (lit "t1") (lit "INFO") (lit "core") (lit "started");
     Build_LogEntry (lit "t2") (lit "ERROR") (lit "web") (lit "failed")]
    (lit "all") []
  = take 200
      [Build_LogEntry (lit "t1") (lit "INFO") (lit "core") (lit "started");
       Build_LogEntry (lit "t2") (lit "ERROR") (lit "web") (lit "failed")].
Proof.
  apply (filtered_logs_are_selected (λ s, s)
           [Build_LogEntry (lit "t1") (lit "INFO") (lit "core") (lit "started");
            Build_LogEntry (lit "t2") (lit "ERROR") (lit "web") (lit "failed")]
           (lit "all") []); reflexivity.
Defined.

Lemma startAutoRefresh_held v : running v = held v → running (startAutoRefresh v) = held (startAutoRefresh v).
Proof.
  unfold startAutoRefresh, held. intros Hv.
  destruct (refreshInterval v) as [h|]; cbn [running refreshInterval next_handle clearInterval].
  - by rewrite Hv, difference_diag_L, (right_id_L ∅ (∪)).
  - by rewrite Hv, (right_id_L ∅ (∪)).
Qed.

Lemma stopAutoRefresh_held v : running v = held v → running (stopAutoRefresh v) = held (stopAutoRefresh v).
Proof.
  unfold stopAutoRefresh, held. intros Hv.
  destruct (refreshInterval v) as [h|] eqn:E; cbn [running refreshInterval].
  - by rewrite Hv, difference_diag_L.
  - by rewrite E.
Qed.

Lemma handle_held v e : running v = held v → running (handle v e) = held (handle v e).
Proof.
  intros Hv. destruct e; cbn [handle].
  - unfold onMounted. destruct (autoRefresh v); [by apply startAutoRefresh_held|done].
  - by apply stopAutoRefresh_held.
  - unfold toggleAutoRefresh. cbn [autoRefresh].
    destruct (negb (autoRefresh v));
      [apply startAutoRefresh_held|apply stopAutoRefresh_held]; done.
  - by apply startAutoRefresh_held.
  - by apply stopAutoRefresh_held.
Qed.

(** X17: the view never runs two refresh intervals and leaves none
    behind: after any sequence of mounts, unmounts, toggles, starts and
    stops, the only interval of the view that runs is the one whose handle
    it holds, and after [onUnmounted] none runs. *)
Theorem one_refresh_interval (events : list event) :
  running (after events setup) = held (after events setup) ∧
  (size (running (after events setup)) ≤ 1)%nat ∧
  running (onUnmounted (after events setup)) = ∅.
Proof.
  assert (running (after events setup) = held (after events setup)) as H.
  { assert (running setup = held setup) as H0 by done.
    revert H0. generalize setup.
    induction events as [|e events IH]; intros v Hv; [done|].
    unfold after. cbn [foldl]. apply IH. by apply handle_held. }
  split; [done|]. split.
  - rewrite H. unfold held. destruct (refreshInterval _).
    + rewrite size_singleton. lia.
    + rewrite size_empty. lia.
  - unfold onUnmounted, stopAutoRefresh.
    destruct (refreshInterval (after events setup)) as [h|] eqn:E; cbn [running].
    + rewrite H. unfold held. rewrite E. apply difference_diag_L.
    + rewrite H. unfold held. by rewrite E.
Qed.

End LogsViewFacts.
